(** * tailsnitch: check registry, audit orchestration and report summary

    A shallow embedding of
    - the check registry ([slugify], [NewCheckRegistry], [Resolve],
      [ResolveAll]) of package [types],
    - the orchestrator ([isAuthError], [Run]) of package [auditor],
    - the report summary of package [types],
    together with the properties of them that the specification states.

    Go strings are byte strings: they are modelled by [string], whose
    characters are the bytes.  A Go [error] is modelled by the text of its
    message together with the error it wraps, if any. *)

From Stdlib Require Import ZArith NArith Ascii String List Bool Lia.
From stdpp Require Import base option list strings gmap.

Local Open Scope string_scope.
Local Open Scope list_scope.
Local Open Scope Z_scope.

(** ** The parts of Go's [strings], [unicode] and [regexp] that the code uses *)

(** The case tables of package [unicode] are not part of the repository.
    [strings.ToUpper] and [strings.ToLower] treat a string of ASCII bytes
    themselves, and hand every other string to [strings.Map] with the
    tables; that second path is what an instance of this class gives. *)
Class UnicodeCase := {
  mapToUpper : string -> string;
  mapToLower : string -> string
}.

Module GoStrings.

Definition code (c : ascii) : N := N_of_ascii c.

Definition between (lo hi : N) (c : ascii) : bool :=
  ((lo <=? code c) && (code c <=? hi))%N.

Definition isLower (c : ascii) : bool := between 97 122 c.
Definition isUpper (c : ascii) : bool := between 65 90 c.
Definition isDigit (c : ascii) : bool := between 48 57 c.

(** [utf8.RuneSelf] is 0x80: bytes below it are ASCII characters. *)
Definition isASCIIByte (c : ascii) : bool := (code c <? 128)%N.

Fixpoint isASCII (s : string) : bool :=
  match s with
  | EmptyString => true
  | String c r => isASCIIByte c && isASCII r
  end.

Fixpoint mapBytes (f : ascii -> ascii) (s : string) : string :=
  match s with
  | EmptyString => EmptyString
  | String c r => String (f c) (mapBytes f r)
  end.

Definition upperByte (c : ascii) : ascii :=
  if isLower c then ascii_of_N (code c - 32) else c.

Definition lowerByte (c : ascii) : ascii :=
  if isUpper c then ascii_of_N (code c + 32) else c.

(** [strings.ToUpper], [strings.ToLower] *)
Definition ToUpper `{UnicodeCase} (s : string) : string :=
  if isASCII s then mapBytes upperByte s else mapToUpper s.

Definition ToLower `{UnicodeCase} (s : string) : string :=
  if isASCII s then mapBytes lowerByte s else mapToLower s.

(** The ASCII white space of [strings.TrimSpace]'s fast path:
    tab, line feed, vertical tab, form feed, carriage return, space. *)
Definition asciiSpace (c : ascii) : bool :=
  between 9 13 c || (code c =? 32)%N.

(** The UTF-8 encodings of the other runes of [unicode.IsSpace]:
    U+0085 and U+00A0 on two bytes; U+1680, U+2000..U+200A, U+2028,
    U+2029, U+202F, U+205F and U+3000 on three. *)
Definition space2 (a b : ascii) : bool :=
  ((code a =? 0xC2) && ((code b =? 0x85) || (code b =? 0xA0)))%N.

Definition space3 (a b c : ascii) : bool :=
  (((code a =? 0xE1) && (code b =? 0x9A) && (code c =? 0x80))
   || ((code a =? 0xE2) && (code b =? 0x80)
       && (between 0x80 0x8A c || (code c =? 0xA8) || (code c =? 0xA9)
           || (code c =? 0xAF)))
   || ((code a =? 0xE2) && (code b =? 0x81) && (code c =? 0x9F))
   || ((code a =? 0xE3) && (code b =? 0x80) && (code c =? 0x80)))%N.

(** Drops the leading white-space runes. *)
Fixpoint trimLeftSpace (s : string) : string :=
  match s with
  | EmptyString => s
  | String a r =>
      if asciiSpace a then trimLeftSpace r else
      match r with
      | EmptyString => s
      | String b r2 =>
          if space2 a b then trimLeftSpace r2 else
          match r2 with
          | EmptyString => s
          | String c r3 => if space3 a b c then trimLeftSpace r3 else s
          end
      end
  end.

(** The same from the end, on the reversed string: the last byte comes
    first. *)
Fixpoint trimRevSpace (s : string) : string :=
  match s with
  | EmptyString => s
  | String c r =>
      if asciiSpace c then trimRevSpace r else
      match r with
      | EmptyString => s
      | String b r2 =>
          if space2 b c then trimRevSpace r2 else
          match r2 with
          | EmptyString => s
          | String a r3 => if space3 a b c then trimRevSpace r3 else s
          end
      end
  end.

(** [strings.TrimSpace] *)
Definition TrimSpace (s : string) : string :=
  String.rev (trimRevSpace (String.rev (trimLeftSpace s))).

Fixpoint trimLeftByte (c : ascii) (s : string) : string :=
  match s with
  | EmptyString => s
  | String a r => if Ascii.eqb a c then trimLeftByte c r else s
  end.

(** [strings.Trim] with a cutset of one ASCII byte *)
Definition Trim (s : string) (c : ascii) : string :=
  String.rev (trimLeftByte c (String.rev (trimLeftByte c s))).

Fixpoint indexFrom (i : Z) (s substr : string) : Z :=
  if String.prefix substr s then i else
  match s with
  | EmptyString => -1
  | String _ r => indexFrom (i + 1) r substr
  end.

(** [strings.Index]: the byte offset of the first occurrence, or -1 *)
Definition Index (s substr : string) : Z := indexFrom 0 s substr.

(** [strings.Contains] *)
Definition Contains (s substr : string) : bool := 0 <=? Index s substr.

(** [s[:n]] *)
Definition sliceTo (s : string) (n : Z) : string :=
  String.substring 0 (Z.to_nat n) s.

(** [strings.ReplaceAll] for a pattern of one byte *)
Fixpoint ReplaceAll (s : string) (old : ascii) (new : string) : string :=
  match s with
  | EmptyString => EmptyString
  | String a r =>
      if Ascii.eqb a old then new +:+ ReplaceAll r old new
      else String a (ReplaceAll r old new)
  end.

(** [strings.Join] *)
Definition Join (elems : list string) (sep : string) : string :=
  String.concat sep elems.

(** The class [[a-z0-9]] *)
Definition isLowerAlnum (c : ascii) : bool := isLower c || isDigit c.

(** [regexp.MustCompile(`[^a-z0-9]+`).ReplaceAllString(s, repl)]: every
    maximal run of bytes outside [[a-z0-9]] becomes one [repl].  A rune
    of several bytes has no byte in [[a-z0-9]], so runs of runes and
    runs of bytes are the same runs. *)
Fixpoint replaceRuns (inRun : bool) (repl : string) (s : string) : string :=
  match s with
  | EmptyString => EmptyString
  | String a r =>
      if isLowerAlnum a then String a (replaceRuns false repl r)
      else if inRun then replaceRuns true repl r
      else repl +:+ replaceRuns true repl r
  end.

Definition ReplaceAllNonAlnum (s repl : string) : string :=
  replaceRuns false repl s.

End GoStrings.

Import GoStrings.

(** ** Package [types]: categories, severities, the check registry *)

Inductive Category :=
  | AccessControl | Authentication | DeviceSecurity | NetworkExposure
  | SSHSecurity | LoggingAdmin | DNSConfiguration.

Inductive Severity := Critical | High | Medium | Low | Info.

Global Instance Category_eq_dec : EqDecision Category.
Proof. solve_decision. Defined.

Global Instance Severity_eq_dec : EqDecision Severity.
Proof. solve_decision. Defined.

Module CheckInfo.
Record t := mk {
  ID : string;
  Slug : string;
  Title : string;
  Category : Category
}.
End CheckInfo.

Global Instance CheckInfo_eq_dec : EqDecision CheckInfo.t.
Proof. solve_decision. Defined.

(** [byID] and [bySlug] hold pointers into [checks]; no entry changes once
    the registry is built, so the maps hold the entries themselves. *)
Record CheckRegistry := {
  checks : list CheckInfo.t;
  byID : gmap string CheckInfo.t;
  bySlug : gmap string CheckInfo.t
}.

(** A Go [error]: the text that [Error()] gives, and for an error made by
    [fmt.Errorf] with [%w] the error it wraps. *)
Inductive error :=
  | errorString (msg : string)
  | wrapError (msg : string) (err : error).

Definition Error (e : error) : string :=
  match e with
  | errorString msg => msg
  | wrapError msg _ => msg
  end.

Section Registry.
Context `{UnicodeCase}.

Definition slugify (s : string) : string :=
  let idx := Index s "(" in
  let s := if 0 <? idx then TrimSpace (sliceTo s idx) else s in
  let s := ToLower s in
  let s := ReplaceAll s "'" EmptyString in
  let s := ReplaceAll s "'" EmptyString in
  let s := ReplaceAllNonAlnum s "-" in
  let s := Trim s "-" in
  s.

Definition entry (id title : string) (c : Category) : CheckInfo.t :=
  CheckInfo.mk id EmptyString title c.

Definition catalog : list CheckInfo.t := [
  entry "ACL-001" "Default 'allow all' policy active" AccessControl;
  entry "ACL-002" "SSH autogroup:nonroot misconfiguration" AccessControl;
  entry "ACL-003" "No ACL tests defined" AccessControl;
  entry "ACL-004" "autogroup:member grants access to external users" AccessControl;
  entry "ACL-005" "AutoApprovers bypass administrative route approval" AccessControl;
  entry "ACL-006" "tagOwners grants tag privileges too broadly" AccessControl;
  entry "ACL-007" "autogroup:danger-all grants access to everyone" AccessControl;
  entry "ACL-008" "No groups defined in ACL policy" AccessControl;
  entry "ACL-009" "Using legacy ACLs instead of grants" AccessControl;
  entry "ACL-010" "Taildrop file sharing configuration" AccessControl;
  entry "AUTH-001" "Reusable auth keys exist" Authentication;
  entry "AUTH-002" "Auth keys with long expiry period" Authentication;
  entry "AUTH-003" "Pre-authorized auth keys bypass device approval" Authentication;
  entry "AUTH-004" "Non-ephemeral keys may be used for CI/CD" Authentication;
  entry "DEV-001" "Tagged devices with key expiry disabled" DeviceSecurity;
  entry "DEV-002" "User devices tagged" DeviceSecurity;
  entry "DEV-003" "Outdated Tailscale clients" DeviceSecurity;
  entry "DEV-004" "Stale devices not seen recently" DeviceSecurity;
  entry "DEV-005" "Unauthorized devices pending approval" DeviceSecurity;
  entry "DEV-006" "External devices in tailnet" DeviceSecurity;
  entry "DEV-007" "Potentially sensitive machine names" DeviceSecurity;
  entry "DEV-008" "Devices with long key expiry periods" DeviceSecurity;
  entry "DEV-009" "Device approval configuration" DeviceSecurity;
  entry "DEV-010" "Tailnet Lock not enabled" DeviceSecurity;
  entry "DEV-011" "Unique users in tailnet" DeviceSecurity;
  entry "DEV-012" "Nodes awaiting Tailnet Lock signature" DeviceSecurity;
  entry "DEV-013" "Device posture configuration" LoggingAdmin;
  entry "NET-001" "Funnel exposes services to public internet" NetworkExposure;
  entry "NET-002" "Exit node access configuration" NetworkExposure;
  entry "NET-003" "Subnet routes expose trust boundary" NetworkExposure;
  entry "NET-004" "HTTPS certificates publish names to CT logs" NetworkExposure;
  entry "NET-005" "Exit nodes can see all internet traffic" NetworkExposure;
  entry "NET-006" "Tailscale Serve exposes services on tailnet" NetworkExposure;
  entry "NET-007" "App connectors provide SaaS access" NetworkExposure;
  entry "SSH-001" "SSH session recording not enforced" SSHSecurity;
  entry "SSH-002" "High-risk SSH access without check mode" SSHSecurity;
  entry "SSH-003" "Session recorder UI may be exposed" SSHSecurity;
  entry "SSH-004" "Tailscale SSH configuration" SSHSecurity;
  entry "LOG-001" "Network flow logs configuration" LoggingAdmin;
  entry "LOG-002" "Log streaming for long-term retention" LoggingAdmin;
  entry "LOG-003" "Audit log limitations" LoggingAdmin;
  entry "LOG-004" "Failed login monitoring via IdP" LoggingAdmin;
  entry "LOG-005" "Webhook secrets never expire" LoggingAdmin;
  entry "LOG-006" "OAuth clients persist after user removal" LoggingAdmin;
  entry "LOG-007" "SCIM API keys never expire" LoggingAdmin;
  entry "LOG-008" "Passkey-authenticated backup admin" LoggingAdmin;
  entry "LOG-009" "MFA enforcement in identity provider" LoggingAdmin;
  entry "LOG-010" "DNS rebinding attack protection" LoggingAdmin;
  entry "LOG-011" "Security contact email configuration" LoggingAdmin;
  entry "LOG-012" "Webhooks for critical events" LoggingAdmin;
  entry "USER-001" "Review user roles and ownership" LoggingAdmin;
  entry "DNS-001" "MagicDNS configuration" DNSConfiguration
].

(** One turn of the loop of [NewCheckRegistry]: the entry gets its slug
    and is entered in both maps; a later entry with the same key
    replaces an earlier one. *)
Definition withSlug (c : CheckInfo.t) : CheckInfo.t :=
  CheckInfo.mk (CheckInfo.ID c) (slugify (CheckInfo.Title c))
               (CheckInfo.Title c) (CheckInfo.Category c).

Definition register (r : CheckRegistry) (c : CheckInfo.t) : CheckRegistry :=
  let check := withSlug c in
  {| checks := (checks r ++ [check])%list;
     byID := <[ToUpper (CheckInfo.ID check) := check]> (byID r);
     bySlug := <[CheckInfo.Slug check := check]> (bySlug r) |}.

Definition emptyRegistry : CheckRegistry :=
  {| checks := []; byID := ∅; bySlug := ∅ |}.

Definition registryOf (cs : list CheckInfo.t) : CheckRegistry :=
  fold_left register cs emptyRegistry.

Definition NewCheckRegistry : CheckRegistry := registryOf catalog.

Definition DefaultRegistry : CheckRegistry := NewCheckRegistry.

Definition All (r : CheckRegistry) : list CheckInfo.t := checks r.

Definition Resolve (r : CheckRegistry) (name : string) : string * bool :=
  match byID r !! ToUpper name with
  | Some check => (CheckInfo.ID check, true)
  | None =>
      match bySlug r !! ToLower name with
      | Some check => (CheckInfo.ID check, true)
      | None => (EmptyString, false)
      end
  end.

(** One turn of the loop of [ResolveAll], on the pair of [ids] and
    [unknown]. *)
Definition resolveStep (r : CheckRegistry) (acc : list string * list string)
    (name : string) : list string * list string :=
  let '(ids, unknown) := acc in
  let name := TrimSpace name in
  if String.eqb name EmptyString then (ids, unknown)
  else
    let '(id, ok) := Resolve r name in
    if negb ok then (ids, (unknown ++ [name])%list)
    else ((ids ++ [id])%list, unknown).

Definition ResolveAll (r : CheckRegistry) (names : list string)
    : list string * option error :=
  let '(ids, unknown) := fold_left (resolveStep r) names ([], []) in
  if 0 <? Z.of_nat (length unknown)
  then ([], Some (errorString ("unknown check(s): " +:+ Join unknown ", ")))
  else (ids, None).

End Registry.



(** ** Package [types]: findings, the report and its summary *)

(** Modelled from the spec: the declarations of [FixInfo], [Suggestion],
    [Summary] and [AuditReport] are in a file of package [types] that is
    not among the sources; the fields are those of the specification's data
    model and output artifact, under the names [Run] uses. *)
Inductive FixType := FixTypeManual | FixTypeAPI.

Module FixInfo.
Record t := mk {
  Type_ : FixType;
  Description : string;
  AdminURL : string;
  DocURL : string
}.
End FixInfo.

Module Suggestion.
Record t := mk {
  ID : string;
  Title : string;
  Severity : Severity;
  Category : Category;
  Description : string;
  Remediation : string;
  Details : list string;
  Pass : bool;
  Fix : option FixInfo.t
}.
End Suggestion.

Module Summary.
Record t := mk {
  Critical : Z;
  High : Z;
  Medium : Z;
  Low : Z;
  Info : Z;
  Passed : Z;
  Total : Z
}.
End Summary.

Module AuditReport.
Record t := mk {
  Timestamp : Z;
  Tailnet : string;
  Suggestions : list Suggestion.t;
  Summary : Summary.t
}.
End AuditReport.

Definition zeroSummary : Summary.t := Summary.mk 0 0 0 0 0 0 0.

(** Modelled from the spec: [AuditReport.CalculateSummary] is in the same
    missing file.  The summary is recomputed from the findings alone: every
    finding counts in the total, a passing one in the passed count, a
    failing one in the count of its severity. *)
Definition tally (acc : Summary.t) (s : Suggestion.t) : Summary.t :=
  let '(Summary.mk critical high medium low info passed total) := acc in
  let total := total + 1 in
  if Suggestion.Pass s then
    Summary.mk critical high medium low info (passed + 1) total
  else
    match Suggestion.Severity s with
    | Critical => Summary.mk (critical + 1) high medium low info passed total
    | High => Summary.mk critical (high + 1) medium low info passed total
    | Medium => Summary.mk critical high (medium + 1) low info passed total
    | Low => Summary.mk critical high medium (low + 1) info passed total
    | Info => Summary.mk critical high medium low (info + 1) passed total
    end.

Definition summarize (l : list Suggestion.t) : Summary.t :=
  fold_left tally l zeroSummary.

Definition CalculateSummary (r : AuditReport.t) : AuditReport.t :=
  AuditReport.mk (AuditReport.Timestamp r) (AuditReport.Tailnet r)
                 (AuditReport.Suggestions r)
                 (summarize (AuditReport.Suggestions r)).

(** The number of findings of a report that did not pass. *)
Definition failing (l : list Suggestion.t) : Z :=
  Z.of_nat (length (filter (fun s => Suggestion.Pass s = false) l)).

Definition severityTotal (s : Summary.t) : Z :=
  Summary.Critical s + Summary.High s + Summary.Medium s + Summary.Low s
  + Summary.Info s.

(** ** Package [auditor]: the orchestrator *)

(** [isAuthError]; [None] is the nil error. *)
Definition isAuthError (err : option error) : bool :=
  match err with
  | None => false
  | Some err =>
      let errStr := Error err in
      Contains errStr "401"
      || Contains errStr "API token invalid"
      || Contains errStr "Unauthorized"
      || Contains errStr "403"
      || Contains errStr "Forbidden"
  end.

(** What a Go function of result type [(T, error)] returns, for the callers
    that look at the value only when the error is nil. *)
Inductive result (A : Type) :=
  | Ok (a : A)
  | Err (err : error).
Arguments Ok {A} a.
Arguments Err {A} err.

Definition newline : string := String (ascii_of_N 10) EmptyString.

Section Orchestrator.

(** The type [ACLPolicy] is declared outside the sources; [zeroPolicy] is
    its zero value, what [var policy ACLPolicy] holds. *)
Context {ACLPolicy : Type} (zeroPolicy : ACLPolicy).

(** What lies outside [Run]: the clock, the client, the two decoders and
    the seven category auditors, each by what it answers when [Run] calls
    it.  [json.Unmarshal] writes through the pointer it is given and
    returns an error or nil: it maps the policy before the call to the
    policy after it. *)
Record World := {
  Now : Z;
  ClientTailnet : string;
  GetACLHuJSON : result string;
  Standardize : string -> result string;
  Unmarshal : string -> ACLPolicy -> ACLPolicy * option error;
  ACLAudit : result (list Suggestion.t);
  AuthAudit : result (list Suggestion.t);
  DeviceAudit : result (list Suggestion.t);
  NetworkAudit : ACLPolicy -> result (list Suggestion.t);
  SSHAudit : ACLPolicy -> result (list Suggestion.t);
  LoggingAudit : result (list Suggestion.t);
  DNSAudit : result (list Suggestion.t)
}.

(** The calls a run makes, in the order it makes them.  A category auditor
    is named by its category; the network and ssh auditors are called with
    a policy. *)
Inductive Event :=
  | CallGetACLHuJSON
  | CallStandardize
  | CallUnmarshal
  | CallAudit (c : Category) (policy : option ACLPolicy)
      (res : result (list Suggestion.t))
  | CallCalculateSummary.

(** [Run] works on the report it allocates; the log of calls is kept next
    to it. *)
Record RunState := {
  report : AuditReport.t;
  log : list Event
}.

Definition M (A : Type) : Type := RunState -> A * RunState.

Definition ret {A} (a : A) : M A := fun st => (a, st).

Definition bind {A B} (m : M A) (k : A -> M B) : M B :=
  fun st => let '(a, st') := m st in k a st'.

Definition emit (e : Event) : M unit :=
  fun st => (tt, {| report := report st; log := log st ++ [e] |}).

(** [report.Suggestions = append(report.Suggestions, l...)] *)
Definition appendSuggestions (l : list Suggestion.t) : M unit :=
  fun st =>
    let r := report st in
    (tt, {| report := AuditReport.mk (AuditReport.Timestamp r)
                        (AuditReport.Tailnet r)
                        (AuditReport.Suggestions r ++ l)
                        (AuditReport.Summary r);
            log := log st |}).

Definition calculateSummary : M unit :=
  fun st =>
    (tt, {| report := CalculateSummary (report st);
            log := log st ++ [CallCalculateSummary] |}).

Definition getReport : M AuditReport.t := fun st => (report st, st).

Declare Scope run_scope.
Delimit Scope run_scope with run.
Notation "x <- m ;; k" := (bind m (fun x => k))
  (at level 100, m at next level, right associativity) : run_scope.
Notation "m ;; k" := (bind m (fun _ => k))
  (at level 100, right associativity) : run_scope.

(** The findings [Run] makes itself. *)
Definition finding (id title : string) (sev : Severity) (c : Category)
    (description remediation : string) (pass : bool) : Suggestion.t :=
  Suggestion.mk id title sev c description remediation [] pass None.

Definition policyUnavailable (err : error) : Suggestion.t :=
  finding "SYS-001" "Could not retrieve ACL policy" High AccessControl
    ("Failed to retrieve ACL policy: " +:+ Error err
     +:+ ". ACL-related checks will be skipped.")
    "Verify API key has sufficient permissions to read ACL policy."
    false.

Definition standardizeWarning (err : error) : Suggestion.t :=
  finding "SYS-002" "ACL policy parsing warning" Low AccessControl
    ("Could not standardize HuJSON ACL: " +:+ Error err
     +:+ ". Some checks may be incomplete.")
    EmptyString true.

Definition unmarshalWarning (err : error) : Suggestion.t :=
  finding "SYS-002" "ACL policy parsing warning" Low AccessControl
    ("ACL policy could not be fully parsed: " +:+ Error err
     +:+ ". Some checks may be incomplete.")
    EmptyString true.

Definition auditErrorID (c : Category) : string :=
  match c with
  | AccessControl => "ACL-ERR"
  | Authentication => "AUTH-ERR"
  | DeviceSecurity => "DEV-ERR"
  | NetworkExposure => "NET-ERR"
  | SSHSecurity => "SSH-ERR"
  | LoggingAdmin => "LOG-ERR"
  | DNSConfiguration => "DNS-ERR"
  end.

Definition auditErrorTitle (c : Category) : string :=
  match c with
  | AccessControl => "ACL audit error"
  | Authentication => "Auth audit error"
  | DeviceSecurity => "Device audit error"
  | NetworkExposure => "Network audit error"
  | SSHSecurity => "SSH audit error"
  | LoggingAdmin => "Logging audit error"
  | DNSConfiguration => "DNS audit error"
  end.

Definition auditErrorPrefix (c : Category) : string :=
  match c with
  | AccessControl => "Error during ACL audit: "
  | Authentication => "Error during auth key audit: "
  | DeviceSecurity => "Error during device audit: "
  | NetworkExposure => "Error during network audit: "
  | SSHSecurity => "Error during SSH audit: "
  | LoggingAdmin => "Error during logging audit: "
  | DNSConfiguration => "Error during DNS audit: "
  end.

(** The finding that stands for a category whose auditor failed. *)
Definition auditError (c : Category) (err : error) : Suggestion.t :=
  finding (auditErrorID c) (auditErrorTitle c) Medium c
    (auditErrorPrefix c +:+ Error err) EmptyString false.

Definition authenticationFailed (err : error) : error :=
  wrapError
    ("authentication failed: " +:+ Error err +:+ newline +:+ newline
     +:+ "Please check your TSKEY environment variable contains a valid API key."
     +:+ newline
     +:+ "Generate a new key at: https://login.tailscale.com/admin/settings/keys")
    err.

(** The first part of [Run]: the policy for the checks that need it, or
    the error on which the run stops. *)
Definition loadPolicy (w : World) : M (ACLPolicy + error) :=
  (emit CallGetACLHuJSON ;;
   match GetACLHuJSON w with
   | Err err =>
       if isAuthError (Some err) then ret (inr (authenticationFailed err))
       else
         appendSuggestions [policyUnavailable err] ;;
         ret (inl zeroPolicy)
   | Ok aclHuJSON =>
       emit CallStandardize ;;
       match Standardize w aclHuJSON with
       | Err err =>
           appendSuggestions [standardizeWarning err] ;;
           ret (inl zeroPolicy)
       | Ok standardizedACL =>
           emit CallUnmarshal ;;
           let '(policy, err) := Unmarshal w standardizedACL zeroPolicy in
           match err with
           | Some err =>
               appendSuggestions [unmarshalWarning err] ;;
               ret (inl policy)
           | None => ret (inl policy)
           end
       end
   end)%run.

(** One category: call its auditor, then append its findings, or the one
    finding that stands for its failure. *)
Definition audit (c : Category) (policy : option ACLPolicy)
    (res : result (list Suggestion.t)) : M unit :=
  (emit (CallAudit c policy res) ;;
   match res with
   | Err err => appendSuggestions [auditError c err]
   | Ok findings => appendSuggestions findings
   end)%run.

Definition newReport (w : World) : RunState :=
  {| report := AuditReport.mk (Now w) (ClientTailnet w) [] zeroSummary;
     log := [] |}.

Definition runBody (w : World) : M (option AuditReport.t * option error) :=
  (loaded <- loadPolicy w ;;
   match loaded with
   | inr err => ret (None, Some err)
   | inl policy =>
       audit AccessControl None (ACLAudit w) ;;
       audit Authentication None (AuthAudit w) ;;
       audit DeviceSecurity None (DeviceAudit w) ;;
       audit NetworkExposure (Some policy) (NetworkAudit w policy) ;;
       audit SSHSecurity (Some policy) (SSHAudit w policy) ;;
       audit LoggingAdmin None (LoggingAudit w) ;;
       audit DNSConfiguration None (DNSAudit w) ;;
       calculateSummary ;;
       r <- getReport ;;
       ret (Some r, None)
   end)%run.

(** [Run]: the report and the error it returns. *)
Definition Run (w : World) : option AuditReport.t * option error :=
  fst (runBody w (newReport w)).

(** The calls [Run] made. *)
Definition calls (w : World) : list Event :=
  log (snd (runBody w (newReport w))).

End Orchestrator.

(** ** Package [client] *)

(** [clientcredentials.Config], by the fields [newWithOAuth] sets. *)
Module OAuthConfig.
Record t := mk {
  ClientID : string;
  ClientSecret : string;
  TokenURL : string
}.
End OAuthConfig.

(** The [tailscale.Client] that [tailscale.NewClient(tailnet,
    tailscale.APIKey(key))] returns, with the HTTP client that
    [newWithOAuth] puts in the place of the default one. *)
Module TSClient.
Record t := mk {
  tailnet : string;
  apiKey : string;
  HTTPClient : option OAuthConfig.t
}.
End TSClient.

Module Client.
Record t := mk {
  ts : TSClient.t;
  tailnet : string
}.
End Client.

Definition newWithOAuth (tailnet clientID clientSecret : string)
    : option Client.t * option error :=
  let oauthConfig :=
    OAuthConfig.mk clientID clientSecret
      "https://api.tailscale.com/api/v2/oauth/token" in
  let ts := TSClient.mk tailnet "oauth" (Some oauthConfig) in
  (Some (Client.mk ts tailnet), None).

(** [New]: [Getenv] is [os.Getenv], which gives the empty string for a
    variable that is not set.  The second component is the value of
    [tailscale.I_Acknowledge_This_API_Is_Unstable] after the call. *)
Definition New (Getenv : string -> string) (tailnet : string)
    : (option Client.t * option error) * bool :=
  let tailnet := if String.eqb tailnet EmptyString then "-" else tailnet in
  let acknowledged := true in
  let oauthClientID := Getenv "TS_OAUTH_CLIENT_ID" in
  let oauthClientSecret := Getenv "TS_OAUTH_CLIENT_SECRET" in
  if negb (String.eqb oauthClientID EmptyString)
     && negb (String.eqb oauthClientSecret EmptyString)
  then (newWithOAuth tailnet oauthClientID oauthClientSecret, acknowledged)
  else
    let apiKey := Getenv "TSKEY" in
    if String.eqb apiKey EmptyString
    then ((None,
           Some (errorString
                   "authentication required: set TSKEY or TS_OAUTH_CLIENT_ID and TS_OAUTH_CLIENT_SECRET")),
          acknowledged)
    else
      let ts := TSClient.mk tailnet apiKey None in
      ((Some (Client.mk ts tailnet), None), acknowledged).

(** [Client.Tailnet] *)
Definition Tailnet (c : Client.t) : string := Client.tailnet c.

(** [tailscale.DNSPreferences] *)
Module DNSPreferences.
Record t := mk { MagicDNS : bool }.
End DNSPreferences.

Module DNSConfig.
Record t := mk {
  MagicDNS : bool;
  NameServers : list string;
  SearchPaths : list string
}.
End DNSConfig.

(** The three lookups of [GetDNSConfig], each by what it answers.  The
    preferences come as a pointer, [None] for nil: the library decodes the
    body of the reply into a pointer, and a body [null] leaves that pointer
    nil beside a nil error. *)
Record DNSWorld := {
  tsDNSPreferences : result (option DNSPreferences.t);
  tsNameServers : result (list string);
  tsSearchPaths : result (list string)
}.

Inductive DNSCall := CallDNSPreferences | CallNameServers | CallSearchPaths.

(** What a call comes to: it returns, or it panics. *)
Inductive outcome (A : Type) :=
  | Returns (a : A)
  | Panics (msg : string).
Arguments Returns {A} a.
Arguments Panics {A} msg.

Definition nilDereference : string :=
  "runtime error: invalid memory address or nil pointer dereference".

(** [Client.GetDNSConfig], with the lookups it made.  [prefs.MagicDNS] is
    read, without a test of [prefs], when the three lookups are over. *)
Definition GetDNSConfig (w : DNSWorld)
    : outcome (option DNSConfig.t * option error) * list DNSCall :=
  match tsDNSPreferences w with
  | Err err =>
      (Returns
         (None, Some (wrapError ("failed to get DNS preferences: " +:+ Error err) err)),
       [CallDNSPreferences])
  | Ok prefs =>
      match tsNameServers w with
      | Err err =>
          (Returns
             (None, Some (wrapError ("failed to get nameservers: " +:+ Error err) err)),
           [CallDNSPreferences; CallNameServers])
      | Ok nameservers =>
          match tsSearchPaths w with
          | Err err =>
              (Returns
                 (None,
                  Some (wrapError ("failed to get search paths: " +:+ Error err) err)),
               [CallDNSPreferences; CallNameServers; CallSearchPaths])
          | Ok searchPaths =>
              (match prefs with
               | Some prefs =>
                   Returns
                     (Some (DNSConfig.mk (DNSPreferences.MagicDNS prefs)
                              nameservers searchPaths), None)
               | None => Panics nilDereference
               end,
               [CallDNSPreferences; CallNameServers; CallSearchPaths])
          end
      end
  end.

(** * The vocabulary of the properties *)

(** ** Names that differ by the case of ASCII letters; the slug in the
    words of the specification *)

(** Two bytes that are equal, or the two cases of one ASCII letter. *)
Definition sameLetter (x y : ascii) : bool :=
  Ascii.eqb x y
  || (isUpper x && Ascii.eqb (lowerByte x) y)
  || (isLower x && Ascii.eqb (upperByte x) y).

Fixpoint caseVariant (s t : string) : bool :=
  match s, t with
  | EmptyString, EmptyString => true
  | String x s', String y t' => sameLetter x y && caseVariant s' t'
  | _, _ => false
  end.

(** What follows the first [c] in [s]. *)
Fixpoint afterFirst (c : ascii) (s : string) : option string :=
  match s with
  | EmptyString => None
  | String a r => if Ascii.eqb a c then Some r else afterFirst c r
  end.

(** Strip a trailing parenthetical qualifier: a title that ends with a
    closing parenthesis loses its text from the last opening one on. *)
Definition stripQualifier (title : string) : string :=
  match String.rev title with
  | String ")" r =>
      match afterFirst "(" r with
      | Some r' => String.rev r'
      | None => title
      end
  | _ => title
  end.

Definition isAlnum (c : ascii) : bool := isLower c || isUpper c || isDigit c.

(** Replace every run of non-alphanumeric bytes with one separator. *)
Fixpoint squeeze (inRun : bool) (sep : ascii) (s : string) : string :=
  match s with
  | EmptyString => EmptyString
  | String a r =>
      if isAlnum a then String a (squeeze false sep r)
      else if inRun then squeeze true sep r
      else String sep (squeeze true sep r)
  end.

(** The slug as the specification words it: qualifier stripped, case
    folded, runs replaced, separators trimmed. *)
Definition slugOfWords `{UnicodeCase} (title : string) : string :=
  Trim (squeeze false "-" (ToLower (stripQualifier title))) "-".

(** [strings.HasSuffix] *)
Definition HasSuffix (s suffix : string) : bool :=
  String.prefix (String.rev suffix) (String.rev s).

(** ** The registry *)

Section RegistryTerms.
Context `{UnicodeCase}.

(** The catalog with the slugs filled in: the entries of the registry. *)
Definition entries : list CheckInfo.t := withSlug <$> catalog.

Definition idKey (c : CheckInfo.t) : string := ToUpper (CheckInfo.ID c).

(** A map filled by a loop of insertions holds, under a key, the last
    element of the list with that key. *)
Definition fill {V} (key : V -> string) (l : list V) (m : gmap string V)
    : gmap string V :=
  fold_left (fun m v => <[key v := v]> m) l m.

(** A name matches an identifier, or a slug, without regard to case when
    the two are equal once folded to one case. *)
Definition matchesID (name : string) (c : CheckInfo.t) : Prop :=
  ToUpper name = ToUpper (CheckInfo.ID c).

Definition matchesSlug (name : string) (c : CheckInfo.t) : Prop :=
  ToLower name = ToLower (CheckInfo.Slug c).

(** The names [ResolveAll] looks up: the trimmed names that are not empty,
    in the order of the input. *)
Definition kept (names : list string) : list string :=
  filter (fun n => n <> EmptyString) (TrimSpace <$> names).

Definition resolves (r : CheckRegistry) (name : string) : bool :=
  snd (Resolve r name).

Definition unresolved (r : CheckRegistry) (names : list string) : list string :=
  filter (fun n => resolves r n = false) (kept names).

Definition resolvedIDs (r : CheckRegistry) (names : list string) : list string :=
  (fun n => fst (Resolve r n)) <$> filter (fun n => resolves r n = true) (kept names).

End RegistryTerms.

(** ** The run *)

Section RunTerms.
Context {ACLPolicy : Type} (zeroPolicy : ACLPolicy).

Abbreviation World := (@World ACLPolicy).
Abbreviation Event := (@Event ACLPolicy).

(** The order in which [Run] takes the categories. *)
Definition categoryOrder : list Category :=
  [AccessControl; Authentication; DeviceSecurity; NetworkExposure;
   SSHSecurity; LoggingAdmin; DNSConfiguration].

(** The run stops at the fetch of the policy. *)
Definition aborts (w : World) : bool :=
  match GetACLHuJSON w with
  | Err err => isAuthError (Some err)
  | Ok _ => false
  end.

(** The policy that the run holds once the first part is over. *)
Definition policyOf (w : World) : ACLPolicy :=
  match GetACLHuJSON w with
  | Err _ => zeroPolicy
  | Ok aclHuJSON =>
      match Standardize w aclHuJSON with
      | Err _ => zeroPolicy
      | Ok standardizedACL => fst (Unmarshal w standardizedACL zeroPolicy)
      end
  end.

(** The findings of the first part. *)
Definition policyFindings (w : World) : list Suggestion.t :=
  match GetACLHuJSON w with
  | Err err => [policyUnavailable err]
  | Ok aclHuJSON =>
      match Standardize w aclHuJSON with
      | Err err => [standardizeWarning err]
      | Ok standardizedACL =>
          match snd (Unmarshal w standardizedACL zeroPolicy) with
          | Some err => [unmarshalWarning err]
          | None => []
          end
      end
  end.

(** The calls of the first part after the fetch. *)
Definition parseCalls (w : World) : list Event :=
  match GetACLHuJSON w with
  | Err _ => []
  | Ok aclHuJSON =>
      CallStandardize ::
      match Standardize w aclHuJSON with
      | Err _ => []
      | Ok _ => [CallUnmarshal]
      end
  end.

(** The policy a category's auditor is called with, and its answer. *)
Definition policyArg (w : World) (c : Category) : option ACLPolicy :=
  match c with
  | NetworkExposure | SSHSecurity => Some (policyOf w)
  | _ => None
  end.

Definition auditResult (w : World) (c : Category)
    : result (list Suggestion.t) :=
  match c with
  | AccessControl => ACLAudit w
  | Authentication => AuthAudit w
  | DeviceSecurity => DeviceAudit w
  | NetworkExposure => NetworkAudit w (policyOf w)
  | SSHSecurity => SSHAudit w (policyOf w)
  | LoggingAdmin => LoggingAudit w
  | DNSConfiguration => DNSAudit w
  end.

Definition auditCall (w : World) (c : Category) : Event :=
  CallAudit c (policyArg w c) (auditResult w c).

(** What a category adds to the report. *)
Definition slot (c : Category) (res : result (list Suggestion.t))
    : list Suggestion.t :=
  match res with
  | Ok findings => findings
  | Err err => [auditError c err]
  end.

Definition slots (w : World) : list Suggestion.t :=
  concat ((fun c => slot c (auditResult w c)) <$> categoryOrder).

Definition finalReport (w : World) : AuditReport.t :=
  let suggestions := policyFindings w ++ slots w in
  AuditReport.mk (Now w) (ClientTailnet w) suggestions (summarize suggestions).

End RunTerms.

(** ** Inputs of the examples *)

(** Case tables that leave every string with a byte outside ASCII as it
    is; the examples below have ASCII names only. *)
Definition asciiCase : UnicodeCase :=
  {| mapToUpper := fun s => s; mapToLower := fun s => s |}.

Definition exampleRegistry : CheckRegistry := @DefaultRegistry asciiCase.

Definition exampleFinding (sev : Severity) (pass : bool) : Suggestion.t :=
  Suggestion.mk "ACL-001" "Default 'allow all' policy active" sev
    AccessControl "example" EmptyString [] pass None.

(** A world where every call succeeds and every auditor finds nothing,
    but for the answer to the fetch of the policy document and the answer
    of the device auditor. *)
Definition quietWorld (fetch : result string)
    (device : result (list Suggestion.t)) : @World unit :=
  {| Now := 0;
     ClientTailnet := "example.com";
     GetACLHuJSON := fetch;
     Standardize := fun acl => Ok acl;
     Unmarshal := fun _ policy => (policy, None);
     ACLAudit := Ok [];
     AuthAudit := Ok [];
     DeviceAudit := device;
     NetworkAudit := fun _ => Ok [];
     SSHAudit := fun _ => Ok [];
     LoggingAudit := Ok [];
     DNSAudit := Ok [] |}.

Definition unauthorized : error :=
  errorString "unexpected HTTP status: 401 Unauthorized".

Definition connectionReset : error :=
  errorString "read tcp: connection reset by peer".

Definition authDown : @World unit := quietWorld (Err unauthorized) (Ok []).

Definition fetchDown : @World unit := quietWorld (Err connectionReset) (Ok []).

(** The same failure of the connection, reported with the addresses of its
    two ends; the local port is 40312. *)
Definition portReset : error :=
  errorString
    "read tcp 10.0.0.5:40312->192.0.2.1:443: read: connection reset by peer".

Definition portDown : @World unit := quietWorld (Err portReset) (Ok []).

Definition deviceDown : @World unit :=
  quietWorld (Ok "{}") (Err connectionReset).

Definition quoted (s : string) : string :=
  String (ascii_of_N 34) s +:+ String (ascii_of_N 34) EmptyString.

(** A policy document in plain JSON, with no comment and no trailing
    comma: one group, and a number where the list of rules belongs. *)
Definition numberForRules : string :=
  "{" +:+ quoted "groups" +:+ ": {" +:+ quoted "group:admins" +:+ ": []}, "
  +:+ quoted "acls" +:+ ": 7}".

Definition numberForRulesError : error :=
  errorString
    "json: cannot unmarshal number into Go struct field ACLPolicy.acls".

(** A world with that document.  [hujson.Standardize] returns plain JSON
    as it is; [json.Unmarshal] fills the groups, skips the field that does
    not fit and returns the error for it.  The policy is the list of its
    group names. *)
Definition halfDecoded : @World (list string) :=
  {| Now := 0;
     ClientTailnet := "example.com";
     GetACLHuJSON := Ok numberForRules;
     Standardize := fun acl => Ok acl;
     Unmarshal := fun standardizedACL policy =>
       if String.eqb standardizedACL numberForRules
       then (["group:admins"], Some numberForRulesError)
       else (policy, None);
     ACLAudit := Ok [];
     AuthAudit := Ok [];
     DeviceAudit := Ok [];
     NetworkAudit := fun _ => Ok [];
     SSHAudit := fun _ => Ok [];
     LoggingAudit := Ok [];
     DNSAudit := Ok [] |}.

(** ** More vocabulary: the shape of slugs, any catalog, the client *)

Fixpoint allBytes (p : ascii -> bool) (s : string) : bool :=
  match s with
  | EmptyString => true
  | String a r => p a && allBytes p r
  end.

Definition isHyphen (c : ascii) : bool := Ascii.eqb c "-".

Definition slugByte (c : ascii) : bool := isLowerAlnum c || isHyphen c.

(** A slug: bytes of [[a-z0-9-]], no hyphen first or last, no two hyphens
    in a row. *)
Definition isSlug (s : string) : bool :=
  allBytes slugByte s
  && negb (String.prefix "-" s)
  && negb (HasSuffix s "-")
  && negb (Contains s "--").

Fixpoint hasDouble (s : string) : bool :=
  match s with
  | EmptyString => false
  | String a r =>
      match r with
      | EmptyString => false
      | String b _ => (isHyphen a && isHyphen b) || hasDouble r
      end
  end.

Definition firstHyphen (s : string) : bool :=
  match s with String a _ => isHyphen a | EmptyString => false end.

Fixpoint lastHyphen (s : string) : bool :=
  match s with
  | EmptyString => false
  | String a r => match r with EmptyString => isHyphen a | _ => lastHyphen r end
  end.

(** Drops the leading ASCII white space. *)
Fixpoint dropSpaces (s : string) : string :=
  match s with
  | EmptyString => s
  | String a r => if asciiSpace a then dropSpaces r else s
  end.

Definition notAlnum (c : ascii) : bool := negb (isLowerAlnum c).

(** Whether a run of bytes outside [[a-z0-9]] is open after [s]. *)
Fixpoint inRunAfter (b : bool) (s : string) : bool :=
  match s with
  | EmptyString => b
  | String a r => inRunAfter (negb (isLowerAlnum a)) r
  end.

(** A catalog of two checks, for the examples. *)
Definition twoChecks : list CheckInfo.t :=
  [entry "NET-001" "Funnel exposes services (Public)" NetworkExposure;
   entry "DNS-001" "MagicDNS configuration" DNSConfiguration].

(** A world where the device and the DNS auditors both fail on rejected
    credentials, after a policy document that was fetched and parsed. *)
Definition twoDown : @World unit :=
  {| Now := 0;
     ClientTailnet := "example.com";
     GetACLHuJSON := Ok "{}";
     Standardize := fun acl => Ok acl;
     Unmarshal := fun _ policy => (policy, None);
     ACLAudit := Ok [];
     AuthAudit := Ok [];
     DeviceAudit := Err unauthorized;
     NetworkAudit := fun _ => Ok [];
     SSHAudit := fun _ => Ok [];
     LoggingAudit := Ok [];
     DNSAudit := Err unauthorized |}.

(** A world where nothing answers, for a reason other than credentials. *)
Definition allDown : @World unit :=
  {| Now := 0;
     ClientTailnet := "example.com";
     GetACLHuJSON := Err connectionReset;
     Standardize := fun acl => Ok acl;
     Unmarshal := fun _ policy => (policy, None);
     ACLAudit := Err connectionReset;
     AuthAudit := Err connectionReset;
     DeviceAudit := Err connectionReset;
     NetworkAudit := fun _ => Err connectionReset;
     SSHAudit := fun _ => Err connectionReset;
     LoggingAudit := Err connectionReset;
     DNSAudit := Err connectionReset |}.

(** The error a function of [error] result returns, the nil error as
    [None]. *)
Definition errorOf {A} (r : result A) : option error :=
  match r with
  | Ok _ => None
  | Err err => Some err
  end.

(** The credentials in the environment of the examples. *)
Definition envOf (id secret key : string) (name : string) : string :=
  if String.eqb name "TS_OAUTH_CLIENT_ID" then id
  else if String.eqb name "TS_OAUTH_CLIENT_SECRET" then secret
  else if String.eqb name "TSKEY" then key
  else EmptyString.

Definition dnsForbidden : DNSWorld :=
  {| tsDNSPreferences := Ok (Some (DNSPreferences.mk true));
     tsNameServers := Err (errorString "403 Forbidden");
     tsSearchPaths := Ok [] |}.

(** The preferences answered with a body [null]. *)
Definition dnsNull : DNSWorld :=
  {| tsDNSPreferences := Ok None;
     tsNameServers := Ok ["100.100.100.100"];
     tsSearchPaths := Ok [] |}.

Section CatalogTerms.
Context `{UnicodeCase}.

(** vocabulary: an entry of a catalog that a name matches *)
Definition matchesEntry (name : string) (c : CheckInfo.t) : Prop :=
  ToUpper name = ToUpper (CheckInfo.ID c)
  \/ ToLower name = slugify (CheckInfo.Title c).

End CatalogTerms.

(** * Properties *)

(** ** The code on a few inputs *)

Example slugify_quotes `{UnicodeCase} :
  slugify "Default 'allow all' policy active"
  = "default-allow-all-policy-active".
Proof. vm_compute. reflexivity. Qed.

Example slugify_qualifier `{UnicodeCase} :
  slugify "Default 'allow all' policy active (Access Rules)"
  = "default-allow-all-policy-active".
Proof. vm_compute. reflexivity. Qed.

Example slugify_leading_parenthesis `{UnicodeCase} :
  slugify "(abc) def" = "abc-def".
Proof. vm_compute. reflexivity. Qed.

Example slugify_inner_quote `{UnicodeCase} :
  slugify "Don't panic" = "dont-panic".
Proof. vm_compute. reflexivity. Qed.

(** A no-break space (U+00A0) before and an em space (U+2003) after. *)
Example TrimSpace_unicode :
  TrimSpace (String (ascii_of_N 0xC2) (String (ascii_of_N 0xA0)
               (" ACL-001 " +:+ String (ascii_of_N 0xE2)
                  (String (ascii_of_N 0x80)
                     (String (ascii_of_N 0x83) EmptyString)))))
  = "ACL-001".
Proof. vm_compute. reflexivity. Qed.

Example TrimSpace_blank : TrimSpace "   " = EmptyString.
Proof. vm_compute. reflexivity. Qed.

Example isAuthError_nil : isAuthError None = false.
Proof. reflexivity. Qed.

Example isAuthError_forbidden :
  isAuthError (Some (errorString "unexpected HTTP status: 403 Forbidden")) = true.
Proof. vm_compute. reflexivity. Qed.

Example isAuthError_timeout :
  isAuthError (Some (errorString "context deadline exceeded")) = false.
Proof. vm_compute. reflexivity. Qed.

Example Resolve_slug `{UnicodeCase} :
  Resolve DefaultRegistry "Tailnet-Lock-Not-Enabled" = ("DEV-010", true).
Proof. vm_compute. reflexivity. Qed.

Example ResolveAll_mixed `{UnicodeCase} :
  ResolveAll DefaultRegistry [" acl-001"; "  "; "magicdns-configuration"]
  = (["ACL-001"; "DNS-001"], None).
Proof. vm_compute. reflexivity. Qed.

(** ** Byte strings *)

Section StringFacts.

Lemma app_cons (a : ascii) (s t : string) :
  String a s +:+ t = String a (s +:+ t).
Proof. reflexivity. Qed.

Lemma app_empty_l (s : string) : EmptyString +:+ s = s.
Proof. reflexivity. Qed.

Lemma app_empty_r (s : string) : s +:+ EmptyString = s.
Proof. induction s as [|a s IH]; [reflexivity|]. now rewrite app_cons, IH. Qed.

Lemma app_assoc_str (s t u : string) : (s +:+ t) +:+ u = s +:+ (t +:+ u).
Proof.
  induction s as [|a s IH]; [reflexivity|]. now rewrite !app_cons, IH.
Qed.

Lemma prefix_app (p s : string) : String.prefix p (p +:+ s) = true.
Proof.
  induction p as [|a p IH].
  - now destruct s.
  - rewrite app_cons. simpl. destruct (ascii_dec a a); [exact IH|congruence].
Qed.

Lemma indexFrom_unfold (i : Z) (s substr : string) :
  indexFrom i s substr =
  if String.prefix substr s then i
  else match s with
       | EmptyString => -1
       | String _ r => indexFrom (i + 1) r substr
       end.
Proof. now destruct s. Qed.

Lemma indexFrom_occurs (a x b : string) :
  forall i, 0 <= i -> 0 <= indexFrom i (a +:+ x +:+ b) x.
Proof.
  induction a as [|c a IH]; intros i Hi; rewrite indexFrom_unfold.
  - now rewrite app_empty_l, prefix_app.
  - destruct (String.prefix x _); [exact Hi|].
    rewrite app_cons. apply IH. lia.
Qed.

(** A string contains each of its segments. *)
Lemma Contains_segment (a x b : string) : Contains (a +:+ x +:+ b) x = true.
Proof.
  unfold Contains, Index. apply Z.leb_le. now apply indexFrom_occurs.
Qed.

Lemma Join_segment (sep x : string) (l : list string) :
  x ∈ l -> exists a b, Join l sep = a +:+ x +:+ b.
Proof.
  unfold Join. induction l as [|y l IH]; intros Hx.
  - now apply elem_of_nil in Hx.
  - apply elem_of_cons in Hx as [->|Hx].
    + destruct l as [|z l].
      * exists EmptyString, EmptyString. simpl. now rewrite app_empty_r.
      * exists EmptyString. eexists. simpl. rewrite app_empty_l. reflexivity.
    + destruct (IH Hx) as (a & b & Hab). destruct l as [|z l].
      * now apply elem_of_nil in Hx.
      * exists (y +:+ sep +:+ a), b.
        change (String.concat sep (y :: z :: l))
          with (y +:+ sep +:+ String.concat sep (z :: l)).
        rewrite Hab. now rewrite !app_assoc_str.
Qed.

End StringFacts.

(** ** The check registry *)

(** Decides a closed decidable statement by evaluating its decision. *)
Ltac by_compute := apply (bool_decide_unpack _); vm_compute; exact I.

(** Finds an element in a list that is written out. *)
Ltac elem_found :=
  repeat first [apply list_elem_of_here | apply list_elem_of_further].

Section RegistryFacts.
Context `{UnicodeCase}.

Lemma idKeys_NoDup : NoDup (idKey <$> entries).
Proof. by_compute. Qed.

Lemma slugs_NoDup : NoDup (CheckInfo.Slug <$> entries).
Proof. by_compute. Qed.

Lemma slugs_lower : Forall (fun c => ToLower (CheckInfo.Slug c) = CheckInfo.Slug c) entries.
Proof. by_compute. Qed.

Lemma slugs_not_ids :
  Forall (fun c => ~ ToUpper (CheckInfo.Slug c) ∈ idKey <$> entries) entries.
Proof. by_compute. Qed.

Lemma fill_sound {V} (key : V -> string) (l : list V) :
  forall (m : gmap string V) k v,
    fill key l m !! k = Some v -> (v ∈ l /\ key v = k) \/ m !! k = Some v.
Proof.
  induction l as [|a l IH]; intros m k v Hk; [now right|].
  apply IH in Hk as [[Hv Hkey]|Hk].
  - left. split; [apply elem_of_cons; now right|exact Hkey].
  - destruct (decide (key a = k)) as [<-|Hne].
    + rewrite lookup_insert_eq in Hk. injection Hk as <-.
      left. split; [apply elem_of_cons; now left|reflexivity].
    + rewrite lookup_insert_ne in Hk by exact Hne. now right.
Qed.

Lemma fill_miss {V} (key : V -> string) (l : list V) :
  forall (m : gmap string V) k,
    (forall v, v ∈ l -> key v <> k) -> fill key l m !! k = m !! k.
Proof.
  induction l as [|a l IH]; intros m k Hl; [reflexivity|].
  unfold fill. simpl. fold (fill key l (<[key a:=a]> m)).
  rewrite IH.
  - apply lookup_insert_ne, Hl, elem_of_cons. now left.
  - intros v Hv. apply Hl, elem_of_cons. now right.
Qed.

Lemma fill_hit {V} (key : V -> string) (l : list V) :
  forall (m : gmap string V) v,
    NoDup (key <$> l) -> v ∈ l -> fill key l m !! key v = Some v.
Proof.
  induction l as [|a l IH]; intros m v Hnd Hv.
  - now apply elem_of_nil in Hv.
  - rewrite fmap_cons in Hnd. apply NoDup_cons in Hnd as [Ha Hnd].
    unfold fill. simpl. fold (fill key l (<[key a:=a]> m)).
    apply elem_of_cons in Hv as [->|Hv]; [|now apply IH].
    rewrite fill_miss; [apply lookup_insert_eq|].
    intros v Hv Heq. apply Ha. rewrite <- Heq. now apply list_elem_of_fmap_2.
Qed.

(** What the loop of [NewCheckRegistry] builds. *)
Lemma registryOf_fold (cs : list CheckInfo.t) :
  forall r,
    let r' := fold_left register cs r in
    checks r' = checks r ++ (withSlug <$> cs)
    /\ byID r' = fill idKey (withSlug <$> cs) (byID r)
    /\ bySlug r' = fill CheckInfo.Slug (withSlug <$> cs) (bySlug r).
Proof.
  induction cs as [|c cs IH]; intros r; simpl.
  - now rewrite app_nil_r.
  - destruct (IH (register r c)) as (H1 & H2 & H3).
    rewrite H1, H2, H3. simpl. now rewrite <- app_assoc.
Qed.

Lemma DefaultRegistry_checks : All DefaultRegistry = entries.
Proof. exact (proj1 (registryOf_fold catalog emptyRegistry)). Qed.

Lemma NewCheckRegistry_checks : All NewCheckRegistry = entries.
Proof. exact (proj1 (registryOf_fold catalog emptyRegistry)). Qed.

Lemma DefaultRegistry_byID : byID DefaultRegistry = fill idKey entries ∅.
Proof. exact (proj1 (proj2 (registryOf_fold catalog emptyRegistry))). Qed.

Lemma DefaultRegistry_bySlug :
  bySlug DefaultRegistry = fill CheckInfo.Slug entries ∅.
Proof. exact (proj2 (proj2 (registryOf_fold catalog emptyRegistry))). Qed.

(** The two lookups of [Resolve] in the default registry. *)
Lemma byID_Some (k : string) (c : CheckInfo.t) :
  byID DefaultRegistry !! k = Some c <-> c ∈ entries /\ idKey c = k.
Proof.
  rewrite DefaultRegistry_byID. split.
  - intros Hk. apply fill_sound in Hk as [Hk|Hk]; [exact Hk|].
    now rewrite lookup_empty in Hk.
  - intros [Hc <-]. apply fill_hit; [apply idKeys_NoDup|exact Hc].
Qed.

Lemma bySlug_Some (k : string) (c : CheckInfo.t) :
  bySlug DefaultRegistry !! k = Some c <-> c ∈ entries /\ CheckInfo.Slug c = k.
Proof.
  rewrite DefaultRegistry_bySlug. split.
  - intros Hk. apply fill_sound in Hk as [Hk|Hk]; [exact Hk|].
    now rewrite lookup_empty in Hk.
  - intros [Hc <-]. apply fill_hit; [apply slugs_NoDup|exact Hc].
Qed.

Lemma byID_None (k : string) :
  byID DefaultRegistry !! k = None <-> forall c, c ∈ entries -> idKey c <> k.
Proof.
  split.
  - intros Hk c Hc Heq.
    assert (byID DefaultRegistry !! k = Some c) as Hs.
    { apply byID_Some. split; assumption. }
    rewrite Hk in Hs. discriminate Hs.
  - intros Hk. destruct (byID DefaultRegistry !! k) as [c|] eqn:E; [|reflexivity].
    apply byID_Some in E as [Hc Heq]. destruct (Hk c Hc Heq).
Qed.

Lemma bySlug_None (k : string) :
  bySlug DefaultRegistry !! k = None
  <-> forall c, c ∈ entries -> CheckInfo.Slug c <> k.
Proof.
  split.
  - intros Hk c Hc Heq.
    assert (bySlug DefaultRegistry !! k = Some c) as Hs.
    { apply bySlug_Some. split; assumption. }
    rewrite Hk in Hs. discriminate Hs.
  - intros Hk. destruct (bySlug DefaultRegistry !! k) as [c|] eqn:E; [|reflexivity].
    apply bySlug_Some in E as [Hc Heq]. destruct (Hk c Hc Heq).
Qed.

End RegistryFacts.

Ltac each_byte x :=
  destruct x as [[] [] [] [] [] [] [] []]; vm_compute;
  intros; try discriminate; repeat split; reflexivity.

Lemma upper_letter (x : ascii) :
  isUpper x = true ->
  isASCIIByte (lowerByte x) = true
  /\ upperByte (lowerByte x) = upperByte x
  /\ lowerByte (lowerByte x) = lowerByte x.
Proof. each_byte x. Qed.

Lemma lower_letter (x : ascii) :
  isLower x = true ->
  isASCIIByte (upperByte x) = true
  /\ upperByte (upperByte x) = upperByte x
  /\ lowerByte (upperByte x) = lowerByte x.
Proof. each_byte x. Qed.

Lemma letter_ascii (x : ascii) :
  isUpper x = true \/ isLower x = true -> isASCIIByte x = true.
Proof.
  destruct x as [[] [] [] [] [] [] [] []]; vm_compute;
    intros [?|?]; try discriminate; reflexivity.
Qed.

Lemma sameLetter_fold (x y : ascii) :
  sameLetter x y = true -> isASCIIByte y = true ->
  isASCIIByte x = true /\ upperByte x = upperByte y /\ lowerByte x = lowerByte y.
Proof.
  unfold sameLetter. intros Hxy Hy.
  apply orb_true_iff in Hxy as [Hxy|Hxy];
    [apply orb_true_iff in Hxy as [Hxy|Hxy]|].
  - apply Ascii.eqb_eq in Hxy as ->. now repeat split.
  - apply andb_true_iff in Hxy as [Hx Hxy]. apply Ascii.eqb_eq in Hxy as <-.
    destruct (upper_letter x Hx) as (_ & Hu & Hl).
    repeat split; [apply letter_ascii; now left|now rewrite Hu|now rewrite Hl].
  - apply andb_true_iff in Hxy as [Hx Hxy]. apply Ascii.eqb_eq in Hxy as <-.
    destruct (lower_letter x Hx) as (_ & Hu & Hl).
    repeat split; [apply letter_ascii; now right|now rewrite Hu|now rewrite Hl].
Qed.

Lemma caseVariant_fold (s : string) :
  forall t, caseVariant s t = true -> isASCII t = true ->
  isASCII s = true
  /\ mapBytes upperByte s = mapBytes upperByte t
  /\ mapBytes lowerByte s = mapBytes lowerByte t.
Proof.
  induction s as [|x s IH]; intros [|y t] Hst Ht; try discriminate Hst.
  - now repeat split.
  - simpl in Hst, Ht.
    apply andb_true_iff in Hst as [Hxy Hst]. apply andb_true_iff in Ht as [Hy Ht].
    destruct (sameLetter_fold x y Hxy Hy) as (Hx & Hu & Hl).
    destruct (IH t Hst Ht) as (Hs & Hus & Hls).
    simpl. rewrite Hx, Hs, Hu, Hl, Hus, Hls. now repeat split.
Qed.

(** A case variant of an ASCII string folds to what the string folds to. *)
Lemma caseVariant_To `{UnicodeCase} (s t : string) :
  caseVariant s t = true -> isASCII t = true ->
  ToUpper s = ToUpper t /\ ToLower s = ToLower t.
Proof.
  intros Hst Ht. destruct (caseVariant_fold s t Hst Ht) as (Hs & Hu & Hl).
  unfold ToUpper, ToLower. rewrite Hs, Ht. now split.
Qed.

Section ResolveFacts.
Context `{UnicodeCase}.

Lemma entries_ascii :
  Forall (fun c => isASCII (CheckInfo.ID c) = true
                   /\ isASCII (CheckInfo.Slug c) = true) entries.
Proof. by_compute. Qed.

Lemma slugs_in_words :
  Forall (fun c => CheckInfo.Slug c = slugOfWords (CheckInfo.Title c)) entries.
Proof. by_compute. Qed.

Lemma Resolve_by_ID (name : string) (c : CheckInfo.t) :
  c ∈ entries -> matchesID name c ->
  Resolve DefaultRegistry name = (CheckInfo.ID c, true).
Proof.
  intros Hc Hm. unfold Resolve.
  assert (byID DefaultRegistry !! ToUpper name = Some c) as ->; [|reflexivity].
  apply byID_Some. split; [exact Hc|]. unfold idKey. symmetry. exact Hm.
Qed.

Lemma Resolve_by_slug (name : string) (c : CheckInfo.t) :
  c ∈ entries -> (forall c', c' ∈ entries -> ~ matchesID name c') ->
  matchesSlug name c ->
  Resolve DefaultRegistry name = (CheckInfo.ID c, true).
Proof.
  intros Hc Hno Hm. unfold Resolve.
  assert (byID DefaultRegistry !! ToUpper name = None) as ->.
  { apply byID_None. intros c' Hc' Heq. apply (Hno c' Hc'). symmetry. exact Heq. }
  assert (bySlug DefaultRegistry !! ToLower name = Some c) as ->; [|reflexivity].
  apply bySlug_Some. split; [exact Hc|].
  rewrite Hm. symmetry. exact (proj1 (Forall_forall _ _) slugs_lower c Hc).
Qed.

Lemma Resolve_unknown (name : string) :
  (forall c, c ∈ entries -> ~ matchesID name c /\ ~ matchesSlug name c) ->
  Resolve DefaultRegistry name = (EmptyString, false).
Proof.
  intros Hno. unfold Resolve.
  assert (byID DefaultRegistry !! ToUpper name = None) as ->.
  { apply byID_None. intros c Hc Heq. apply (proj1 (Hno c Hc)). symmetry. exact Heq. }
  assert (bySlug DefaultRegistry !! ToLower name = None) as ->; [|reflexivity].
  apply bySlug_None. intros c Hc Heq. apply (proj2 (Hno c Hc)).
  unfold matchesSlug. rewrite <- Heq. symmetry.
  exact (proj1 (Forall_forall _ _) slugs_lower c Hc).
Qed.

End ResolveFacts.

(** *** [ResolveAll] *)

Section ResolveAllFacts.
Context `{UnicodeCase}.

Lemma kept_cons (name : string) (names : list string) :
  kept (name :: names) =
  if String.eqb (TrimSpace name) EmptyString then kept names
  else TrimSpace name :: kept names.
Proof.
  unfold kept. rewrite fmap_cons, filter_cons.
  destruct (String.eqb_spec (TrimSpace name) EmptyString) as [E|E];
    destruct (decide (TrimSpace name <> EmptyString)) as [D|D];
    try reflexivity; [destruct (D E)|destruct (D E)].
Qed.

Lemma resolve_loop (r : CheckRegistry) (names : list string) :
  forall ids unknown,
    fold_left (resolveStep r) names (ids, unknown)
    = (ids ++ resolvedIDs r names, unknown ++ unresolved r names).
Proof.
  induction names as [|name names IH]; intros ids unknown.
  - unfold resolvedIDs, unresolved, kept. simpl. now rewrite !app_nil_r.
  - simpl. unfold resolvedIDs, unresolved in *. rewrite kept_cons.
    destruct (String.eqb (TrimSpace name) EmptyString); [apply IH|].
    destruct (Resolve r (TrimSpace name)) as [id ok] eqn:E.
    assert (resolves r (TrimSpace name) = ok) as Hok
      by (unfold resolves; now rewrite E).
    destruct ok; simpl; rewrite IH.
    + rewrite (filter_cons_True (fun n => resolves r n = true)) by exact Hok.
      rewrite (filter_cons_False (fun n => resolves r n = false))
        by (rewrite Hok; discriminate).
      rewrite fmap_cons, E. simpl. now rewrite <- app_assoc.
    + rewrite (filter_cons_False (fun n => resolves r n = true))
        by (rewrite Hok; discriminate).
      rewrite (filter_cons_True (fun n => resolves r n = false)) by exact Hok.
      now rewrite <- app_assoc.
Qed.

(** [ResolveAll] in one equation. *)
Lemma ResolveAll_eq (r : CheckRegistry) (names : list string) :
  ResolveAll r names =
  match unresolved r names with
  | [] => (resolvedIDs r names, None)
  | _ :: _ =>
      ([], Some (errorString
                   ("unknown check(s): " +:+ Join (unresolved r names) ", ")))
  end.
Proof.
  unfold ResolveAll. rewrite resolve_loop. simpl.
  now destruct (unresolved r names).
Qed.

Lemma unresolved_elem (r : CheckRegistry) (names : list string) (n : string) :
  n ∈ unresolved r names
  <-> n <> EmptyString /\ resolves r n = false
      /\ exists name, name ∈ names /\ n = TrimSpace name.
Proof.
  unfold unresolved, kept. rewrite !list_elem_of_filter, list_elem_of_fmap.
  split.
  - intros (Hr & Hn & name & -> & Hname). eauto.
  - intros (Hn & Hr & name & Hname & ->). eauto.
Qed.

Lemma all_resolved (r : CheckRegistry) (names : list string) :
  unresolved r names = [] ->
  resolvedIDs r names = (fun n => fst (Resolve r n)) <$> kept names.
Proof.
  unfold unresolved, resolvedIDs. intros Hu. f_equal.
  induction (kept names) as [|n l IH]; [reflexivity|].
  destruct (resolves r n) eqn:E.
  - rewrite (filter_cons_False (fun n => resolves r n = false)) in Hu
      by (rewrite E; discriminate).
    rewrite (filter_cons_True (fun n => resolves r n = true)) by exact E.
    now rewrite IH.
  - rewrite (filter_cons_True (fun n => resolves r n = false)) in Hu by exact E.
    discriminate Hu.
Qed.

Lemma kept_app (a b : list string) : kept (a ++ b) = kept a ++ kept b.
Proof. unfold kept. now rewrite fmap_app, filter_app. Qed.

End ResolveAllFacts.

(** C5: [ResolveAll] fails exactly when some name, once trimmed, is not
    empty and resolves neither as an ID nor as a slug; it then returns no
    IDs and one error whose message contains every such name; on
    ["ACL-001"; "bogus-1"; "bogus-2"] the message names both bogus names. *)
Theorem ResolveAll_names_every_unknown `{UnicodeCase} :
  (forall (r : CheckRegistry) (names : list string),
     (snd (ResolveAll r names) <> None
      <-> exists name, name ∈ names /\ TrimSpace name <> EmptyString
                       /\ resolves r (TrimSpace name) = false)
     /\ (forall err, snd (ResolveAll r names) = Some err ->
           fst (ResolveAll r names) = []
           /\ forall name, name ∈ names -> TrimSpace name <> EmptyString ->
                resolves r (TrimSpace name) = false ->
                Contains (Error err) (TrimSpace name) = true))
  /\ ResolveAll DefaultRegistry ["ACL-001"; "bogus-1"; "bogus-2"]
     = ([], Some (errorString "unknown check(s): bogus-1, bogus-2")).
Proof.
  split; [|vm_compute; reflexivity].
  intros r names. rewrite ResolveAll_eq.
  assert (forall n, n ∈ unresolved r names
            <-> exists name, name ∈ names /\ n = TrimSpace name
                  /\ TrimSpace name <> EmptyString
                  /\ resolves r (TrimSpace name) = false) as Hel.
  { intros n. rewrite unresolved_elem. split.
    - intros (Hn & Hr & name & Hname & ->). eauto 6.
    - intros (name & Hname & -> & Hn & Hr). eauto 6. }
  assert (forall n, n ∈ unresolved r names ->
            exists a b, Join (unresolved r names) ", " = a +:+ n +:+ b) as Hseg
    by (intros n; apply Join_segment).
  remember (Join (unresolved r names) ", ") as msg eqn:Hmsg. clear Hmsg.
  destruct (unresolved r names) as [|u us] eqn:Hu; cbn [fst snd]; split.
  - split; [intros Hne; now destruct Hne|].
    intros (name & Hname & Hn & Hr).
    assert (TrimSpace name ∈ @nil string) as Hin by (apply Hel; eauto 6).
    now apply elem_of_nil in Hin.
  - intros err Herr. discriminate Herr.
  - split; [|discriminate].
    intros _. destruct (proj1 (Hel u)) as (name & Hname & -> & Hn & Hr).
    + apply elem_of_cons. now left.
    + eauto.
  - intros err [= <-]. split; [reflexivity|].
    intros name Hname Hn Hr. cbn [Error].
    assert (TrimSpace name ∈ u :: us) as Hin by (apply Hel; eauto 6).
    destruct (Hseg _ Hin) as (a & b & ->).
    rewrite <- app_assoc_str. apply Contains_segment.
Qed.

Lemma ResolveAll_names_every_unknown_witness :
  @resolves asciiCase exampleRegistry (TrimSpace "bogus-2") = false
  /\ Contains "unknown check(s): bogus-1, bogus-2" (TrimSpace "bogus-2") = true.
Proof.
  split; [vm_compute; reflexivity|].
  destruct (@ResolveAll_names_every_unknown asciiCase) as [Hgen _].
  destruct (Hgen exampleRegistry ["ACL-001"; "bogus-1"; "bogus-2"]) as [_ Herr].
  refine (proj2 (Herr (errorString "unknown check(s): bogus-1, bogus-2") _)
            "bogus-2" _ _ _).
  - vm_compute. reflexivity.
  - apply elem_of_cons. right. apply elem_of_cons. right.
    apply elem_of_cons. left. reflexivity.
  - vm_compute. discriminate.
  - vm_compute. reflexivity.
Defined.

(** C10: [ResolveAll] looks at the names only through their trimmed forms;
    a name that trims to the empty string changes nothing (it yields no ID
    and is never reported); on success the IDs are those of the remaining
    names, one each, in the order of the input; on failure no reported
    name is empty. *)
Theorem ResolveAll_trims_and_skips `{UnicodeCase} (r : CheckRegistry)
    (names : list string) :
  (forall names', TrimSpace <$> names = TrimSpace <$> names' ->
     ResolveAll r names = ResolveAll r names')
  /\ (forall a blank b, names = a ++ blank :: b ->
        TrimSpace blank = EmptyString ->
        ResolveAll r names = ResolveAll r (a ++ b))
  /\ (snd (ResolveAll r names) = None ->
        fst (ResolveAll r names)
        = (fun n => fst (Resolve r n)) <$> kept names)
  /\ (forall err, snd (ResolveAll r names) = Some err ->
        Error err = "unknown check(s): " +:+ Join (unresolved r names) ", "
        /\ ~ EmptyString ∈ unresolved r names).
Proof.
  split; [|split; [|split]].
  - intros names' Heq. rewrite !ResolveAll_eq.
    unfold unresolved, resolvedIDs, kept. now rewrite Heq.
  - intros a blank b -> Hblank. rewrite !ResolveAll_eq.
    unfold unresolved, resolvedIDs. rewrite !kept_app, kept_cons, Hblank.
    reflexivity.
  - rewrite ResolveAll_eq. destruct (unresolved r names) eqn:Hu; cbn [fst snd].
    + intros _. now apply all_resolved.
    + discriminate.
  - intros err Herr. split.
    + rewrite ResolveAll_eq in Herr.
      remember (Join (unresolved r names) ", ") as msg eqn:Hmsg. clear Hmsg.
      destruct (unresolved r names); cbn [snd] in Herr.
      * discriminate Herr.
      * injection Herr as <-. reflexivity.
    + intros Hin. apply unresolved_elem in Hin as (Hn & _). now apply Hn.
Qed.

Lemma ResolveAll_trims_and_skips_witness :
  @ResolveAll asciiCase exampleRegistry ["dev-001"; "   "; " ACL-001 "]
  = @ResolveAll asciiCase exampleRegistry ["dev-001"; " ACL-001 "]
  /\ fst (@ResolveAll asciiCase exampleRegistry
            ["dev-001"; "   "; " ACL-001 "])
     = ["DEV-001"; "ACL-001"].
Proof.
  destruct (@ResolveAll_trims_and_skips asciiCase exampleRegistry
              ["dev-001"; "   "; " ACL-001 "]) as (_ & Hskip & Hids & _).
  split.
  - apply (Hskip ["dev-001"] "   " [" ACL-001 "]); reflexivity.
  - rewrite Hids; vm_compute; reflexivity.
Defined.

(** C6: in the default registry [Resolve] gives the canonical ID of the
    entry whose ID the name matches without regard to case, otherwise of
    the entry whose slug it matches without regard to case, and answers
    "not found" for every other name; in particular every ASCII case
    variant of an ID or of a slug resolves to the ID of its entry. *)
Theorem Resolve_case_insensitive `{UnicodeCase} (name : string) :
  (forall c, c ∈ All DefaultRegistry -> matchesID name c ->
     Resolve DefaultRegistry name = (CheckInfo.ID c, true))
  /\ (forall c, c ∈ All DefaultRegistry ->
        (forall c', c' ∈ All DefaultRegistry -> ~ matchesID name c') ->
        matchesSlug name c ->
        Resolve DefaultRegistry name = (CheckInfo.ID c, true))
  /\ ((forall c, c ∈ All DefaultRegistry ->
         ~ matchesID name c /\ ~ matchesSlug name c) ->
      Resolve DefaultRegistry name = (EmptyString, false))
  /\ (forall c, c ∈ All DefaultRegistry ->
        caseVariant name (CheckInfo.ID c) = true
        \/ caseVariant name (CheckInfo.Slug c) = true ->
        Resolve DefaultRegistry name = (CheckInfo.ID c, true)).
Proof.
  rewrite DefaultRegistry_checks. split; [|split; [|split]].
  - intros c. apply Resolve_by_ID.
  - intros c. apply Resolve_by_slug.
  - apply Resolve_unknown.
  - intros c Hc Hv.
    destruct (proj1 (Forall_forall _ _) entries_ascii c Hc) as [Hid Hslug].
    destruct Hv as [Hv|Hv].
    + apply Resolve_by_ID; [exact Hc|].
      exact (proj1 (caseVariant_To _ _ Hv Hid)).
    + destruct (caseVariant_To _ _ Hv Hslug) as [Hu Hl].
      apply Resolve_by_slug; [exact Hc| |exact Hl].
      intros c' Hc' Hm. unfold matchesID in Hm. rewrite Hu in Hm.
      apply (proj1 (Forall_forall _ _) slugs_not_ids c Hc).
      rewrite Hm. now apply (list_elem_of_fmap_2 idKey).
Qed.

Lemma Resolve_case_insensitive_witness :
  @Resolve asciiCase exampleRegistry "acl-001" = ("ACL-001", true)
  /\ @Resolve asciiCase exampleRegistry "MagicDNS-Configuration"
     = ("DNS-001", true)
  /\ @Resolve asciiCase exampleRegistry "no such check" = (EmptyString, false).
Proof.
  split; [|split].
  - refine (proj2 (proj2 (proj2
              (@Resolve_case_insensitive asciiCase "acl-001")))
              (CheckInfo.mk "ACL-001" "default-allow-all-policy-active"
                 "Default 'allow all' policy active" AccessControl) _ _).
    + by_compute.
    + left. vm_compute. reflexivity.
  - refine (proj2 (proj2 (proj2
              (@Resolve_case_insensitive asciiCase "MagicDNS-Configuration")))
              (CheckInfo.mk "DNS-001" "magicdns-configuration"
                 "MagicDNS configuration" DNSConfiguration) _ _).
    + by_compute.
    + right. vm_compute. reflexivity.
  - refine (proj1 (proj2 (proj2
              (@Resolve_case_insensitive asciiCase "no such check"))) _).
    apply (proj1 (Forall_forall _ _)). unfold matchesID, matchesSlug.
    by_compute.
Defined.

(** ** The summary *)

Section SummaryFacts.

Lemma failing_cons (s : Suggestion.t) (l : list Suggestion.t) :
  failing (s :: l) = (if Suggestion.Pass s then 0 else 1) + failing l.
Proof.
  unfold failing. destruct (Suggestion.Pass s) eqn:P.
  - rewrite filter_cons_False by (rewrite P; discriminate). lia.
  - rewrite filter_cons_True by exact P. cbn [length]. lia.
Qed.

Lemma tally_counts (acc : Summary.t) (s : Suggestion.t) :
  Summary.Total (tally acc s) = Summary.Total acc + 1
  /\ Summary.Passed (tally acc s)
     = Summary.Passed acc + (if Suggestion.Pass s then 1 else 0)
  /\ severityTotal (tally acc s)
     = severityTotal acc + (if Suggestion.Pass s then 0 else 1).
Proof.
  destruct acc. unfold tally, severityTotal.
  destruct (Suggestion.Pass s); [|destruct (Suggestion.Severity s)];
    cbn; repeat split; lia.
Qed.

Lemma tally_loop (l : list Suggestion.t) :
  forall acc,
    let S := fold_left tally l acc in
    Summary.Total S = Summary.Total acc + Z.of_nat (length l)
    /\ Summary.Passed S
       = Summary.Passed acc + (Z.of_nat (length l) - failing l)
    /\ severityTotal S = severityTotal acc + failing l.
Proof.
  induction l as [|s l IH]; intros acc.
  - cbn. unfold failing. cbn. repeat split; lia.
  - cbn [fold_left]. destruct (IH (tally acc s)) as (Ht & Hp & Hs).
    destruct (tally_counts acc s) as (Ht' & Hp' & Hs').
    cbn zeta. rewrite Ht, Hp, Hs, Ht', Hp', Hs', failing_cons.
    cbn [length]. destruct (Suggestion.Pass s); repeat split; lia.
Qed.

Lemma summarize_snoc (l : list Suggestion.t) (s : Suggestion.t) :
  summarize (l ++ [s]) = tally (summarize l) s.
Proof. unfold summarize. now rewrite fold_left_app. Qed.

End SummaryFacts.

(** C8: the recomputed summary of a report with N findings, K of them
    failing, has severity counts that sum to K, N - K passed and total N,
    so that the total is the passed count plus the severity counts; one
    more failing Critical finding raises the critical count and the total
    by one and leaves the other counts as they were. *)
Theorem summary_counts (r : AuditReport.t) :
  let N := Z.of_nat (length (AuditReport.Suggestions r)) in
  let K := failing (AuditReport.Suggestions r) in
  let S := AuditReport.Summary (CalculateSummary r) in
  severityTotal S = K
  /\ Summary.Passed S = N - K
  /\ Summary.Total S = N
  /\ Summary.Total S = Summary.Passed S + severityTotal S
  /\ forall s,
       Suggestion.Pass s = false -> Suggestion.Severity s = Critical ->
       let r' := AuditReport.mk (AuditReport.Timestamp r) (AuditReport.Tailnet r)
                   (AuditReport.Suggestions r ++ [s]) (AuditReport.Summary r) in
       let S' := AuditReport.Summary (CalculateSummary r') in
       Summary.Critical S' = Summary.Critical S + 1
       /\ Summary.Total S' = Summary.Total S + 1
       /\ Summary.High S' = Summary.High S
       /\ Summary.Medium S' = Summary.Medium S
       /\ Summary.Low S' = Summary.Low S
       /\ Summary.Info S' = Summary.Info S
       /\ Summary.Passed S' = Summary.Passed S.
Proof.
  intros N K S. subst N K S. cbn [CalculateSummary AuditReport.Summary
    AuditReport.Suggestions].
  destruct (tally_loop (AuditReport.Suggestions r) zeroSummary) as (Ht & Hp & Hs).
  cbn zeta in Ht, Hp, Hs. fold (summarize (AuditReport.Suggestions r)) in Ht, Hp, Hs.
  change (severityTotal zeroSummary) with 0 in Hs.
  change (Summary.Passed zeroSummary) with 0 in Hp.
  change (Summary.Total zeroSummary) with 0 in Ht.
  split; [lia|]. split; [lia|]. split; [lia|]. split; [lia|].
  intros s Hpass Hsev. cbn [CalculateSummary AuditReport.Summary
    AuditReport.Suggestions].
  rewrite summarize_snoc. unfold tally.
  destruct (summarize (AuditReport.Suggestions r)).
  rewrite Hpass, Hsev. repeat split; reflexivity.
Qed.

Lemma summary_counts_witness :
  let r := AuditReport.mk 0 "example.com"
             [exampleFinding High false; exampleFinding Low true] zeroSummary in
  let r' := AuditReport.mk 0 "example.com"
              [exampleFinding High false; exampleFinding Low true;
               exampleFinding Critical false] zeroSummary in
  Summary.Critical (AuditReport.Summary (CalculateSummary r'))
  = Summary.Critical (AuditReport.Summary (CalculateSummary r)) + 1.
Proof.
  intros r r'.
  exact (proj1 (proj2 (proj2 (proj2 (proj2 (summary_counts r))))
                  (exampleFinding Critical false) eq_refl eq_refl)).
Defined.

(** ** The orchestrator *)

Section RunFacts.
Context {ACLPolicy : Type} (zeroPolicy : ACLPolicy).

Abbreviation World := (@World ACLPolicy).
Abbreviation Event := (@Event ACLPolicy).

Local Arguments isAuthError : simpl never.

Lemma audit_eq (c : Category) (p : option ACLPolicy)
    (res : result (list Suggestion.t)) ts tn sg sm lg :
  audit c p res {| report := AuditReport.mk ts tn sg sm; log := lg |}
  = (tt, {| report := AuditReport.mk ts tn (sg ++ slot c res) sm;
            log := lg ++ [CallAudit c p res] |}).
Proof. destruct res; reflexivity. Qed.

Lemma loadPolicy_eq (w : World) ts tn sg sm lg :
  aborts w = false ->
  loadPolicy zeroPolicy w {| report := AuditReport.mk ts tn sg sm; log := lg |}
  = (inl (policyOf zeroPolicy w),
     {| report := AuditReport.mk ts tn (sg ++ policyFindings zeroPolicy w) sm;
        log := lg ++ CallGetACLHuJSON :: parseCalls w |}).
Proof.
  unfold aborts, loadPolicy, policyOf, policyFindings, parseCalls, bind.
  intros Hab. cbn.
  destruct (GetACLHuJSON w) as [acl|err].
  - destruct (Standardize w acl) as [std|err]; cbn.
    + destruct (Unmarshal w std zeroPolicy) as [p [err|]]; cbn;
        unfold ret; rewrite <- ?app_assoc, ?app_nil_r; reflexivity.
    + rewrite <- app_assoc. reflexivity.
  - rewrite Hab. reflexivity.
Qed.

Lemma loadPolicy_aborted (w : World) (err : error) (st : RunState) :
  GetACLHuJSON w = Err err -> isAuthError (Some err) = true ->
  loadPolicy zeroPolicy w st
  = (inr (authenticationFailed err),
     {| report := report st; log := log st ++ [CallGetACLHuJSON] |}).
Proof.
  unfold loadPolicy, bind. intros -> Hauth. cbn. now rewrite Hauth.
Qed.

(** A run that stops at the fetch. *)
Lemma run_aborted (w : World) (err : error) :
  GetACLHuJSON w = Err err -> isAuthError (Some err) = true ->
  runBody zeroPolicy w (newReport w)
  = ((None, Some (authenticationFailed err)),
     {| report := AuditReport.mk (Now w) (ClientTailnet w) [] zeroSummary;
        log := [CallGetACLHuJSON] |}).
Proof.
  intros Hget Hauth. unfold runBody, bind.
  rewrite (loadPolicy_aborted w err _ Hget Hauth). reflexivity.
Qed.

(** A run that goes on to the categories. *)
Lemma run_completed (w : World) :
  aborts w = false ->
  runBody zeroPolicy w (newReport w)
  = ((Some (finalReport zeroPolicy w), None),
     {| report := finalReport zeroPolicy w;
        log := CallGetACLHuJSON :: parseCalls w
               ++ (auditCall zeroPolicy w <$> categoryOrder)
               ++ [CallCalculateSummary] |}).
Proof.
  intros Hab. unfold runBody, bind, newReport.
  rewrite (loadPolicy_eq w _ _ _ _ _ Hab). rewrite !audit_eq.
  unfold calculateSummary, getReport, ret, finalReport, slots, CalculateSummary,
    auditCall.
  cbn [report log AuditReport.Timestamp AuditReport.Tailnet
       AuditReport.Suggestions AuditReport.Summary fmap list_fmap concat
       categoryOrder auditResult policyArg app].
  rewrite <- !app_assoc, ?app_nil_r.
  cbn [app]. reflexivity.
Qed.

Lemma aborts_true (w : World) :
  aborts w = true ->
  exists err, GetACLHuJSON w = Err err /\ isAuthError (Some err) = true.
Proof.
  unfold aborts. destruct (GetACLHuJSON w) as [acl|err]; [discriminate|].
  intros Hauth. now exists err.
Qed.

Lemma calls_aborted (w : World) :
  aborts w = true -> calls zeroPolicy w = [CallGetACLHuJSON].
Proof.
  intros Hab. destruct (aborts_true w Hab) as (err & Hget & Hauth).
  unfold calls. now rewrite (run_aborted w err Hget Hauth).
Qed.

Lemma calls_completed (w : World) :
  aborts w = false ->
  calls zeroPolicy w
  = CallGetACLHuJSON :: parseCalls w ++ (auditCall zeroPolicy w <$> categoryOrder)
    ++ [CallCalculateSummary].
Proof. intros Hab. unfold calls. now rewrite (run_completed w Hab). Qed.

Lemma Run_returns_report (w : World) :
  aborts w = false -> Run zeroPolicy w = (Some (finalReport zeroPolicy w), None).
Proof. intros Hab. unfold Run. now rewrite (run_completed w Hab). Qed.

Lemma parseCalls_kinds (w : World) :
  Forall (fun e => e = CallStandardize \/ e = CallUnmarshal) (parseCalls w).
Proof.
  unfold parseCalls. destruct (GetACLHuJSON w) as [acl|err]; [|constructor].
  destruct (Standardize w acl);
    repeat (apply Forall_cons; split; [auto|]); apply Forall_nil_2.
Qed.

(** The calls to auditors in a run that goes on to the categories: every
    category once, with the policy of the run where it takes one, and with
    the answer of its auditor. *)
Lemma audit_called (w : World) (c : Category) (p : option ACLPolicy)
    (res : result (list Suggestion.t)) :
  aborts w = false ->
  (CallAudit c p res ∈ calls zeroPolicy w
   <-> p = policyArg zeroPolicy w c /\ res = auditResult zeroPolicy w c).
Proof.
  intros Hab. rewrite (calls_completed w Hab). split.
  - intros Hin. apply elem_of_cons in Hin as [Hin|Hin]; [discriminate Hin|].
    apply elem_of_app in Hin as [Hin|Hin].
    { pose proof (proj1 (Forall_forall _ _) (parseCalls_kinds w) _ Hin) as [E|E];
        discriminate E. }
    apply elem_of_app in Hin as [Hin|Hin].
    + apply list_elem_of_fmap in Hin as (c' & E & _).
      unfold auditCall in E. injection E as -> -> ->. now split.
    + apply list_elem_of_singleton in Hin. discriminate Hin.
  - intros [-> ->]. apply elem_of_cons. right.
    apply elem_of_app. right. apply elem_of_app. left.
    apply (list_elem_of_fmap_2 (auditCall zeroPolicy w)).
    destruct c; unfold categoryOrder; elem_found.
Qed.

End RunFacts.

Lemma isAuthError_tokens (err : error) :
  isAuthError (Some err) = true
  <-> exists token,
        token ∈ ["401"; "API token invalid"; "Unauthorized"; "403"; "Forbidden"]
        /\ Contains (Error err) token = true.
Proof.
  unfold isAuthError. rewrite !orb_true_iff. split.
  - intros [[[[Ht|Ht]|Ht]|Ht]|Ht]; eexists; (split; [|exact Ht]);
      elem_found.
  - intros (token & Hin & Ht).
    repeat (apply elem_of_cons in Hin as [->|Hin]; [tauto|]).
    now apply elem_of_nil in Hin.
Qed.

Section RunClaims.
Context {ACLPolicy : Type} (zeroPolicy : ACLPolicy).

Abbreviation World' := (@World ACLPolicy).

(** C1: when the fetch of the policy document fails with an error that
    [isAuthError] accepts, [Run] returns no report and the
    authentication-failure error that wraps it; the fetch is the only call
    of the run, so no category auditor runs, and nothing was appended to
    the report that is dropped. *)
Theorem auth_failure_aborts (w : World') (err : error) :
  GetACLHuJSON w = Err err ->
  isAuthError (Some err) = true ->
  Run zeroPolicy w = (None, Some (authenticationFailed err))
  /\ calls zeroPolicy w = [CallGetACLHuJSON]
  /\ AuditReport.Suggestions
       (report (snd (runBody zeroPolicy w (newReport w)))) = []
  /\ exists msg,
       authenticationFailed err = wrapError msg err
       /\ String.prefix "authentication failed: " msg = true
       /\ Contains msg (Error err) = true.
Proof.
  intros Hget Hauth. unfold Run, calls.
  rewrite (run_aborted zeroPolicy w err Hget Hauth).
  split; [reflexivity|]. split; [reflexivity|]. split; [reflexivity|].
  eexists. split; [reflexivity|]. split; [apply prefix_app|].
  apply Contains_segment.
Qed.

(** C2: in a run where the auditor of one category was called and failed,
    and no other auditor failed, [Run] returns a report and a nil error;
    the report holds the findings of the first part, then for each
    category in order the findings its auditor returned, with, in the
    place of the failed category, the single finding [<ID>-ERR] of medium
    severity that did not pass and whose description ends with the text of
    the error ("DEV-ERR" for the device auditor). *)
Theorem category_failure_becomes_finding (w : World') (c : Category)
    (p : option ACLPolicy) (err : error) :
  CallAudit c p (Err err) ∈ calls zeroPolicy w ->
  (forall c' p' err', c' <> c ->
     ~ CallAudit c' p' (Err err') ∈ calls zeroPolicy w) ->
  exists report findings,
    Run zeroPolicy w = (Some report, None)
    /\ (forall c', c' <> c -> auditResult zeroPolicy w c' = Ok (findings c'))
    /\ findings c = [auditError c err]
    /\ AuditReport.Suggestions report
       = policyFindings zeroPolicy w ++ concat (findings <$> categoryOrder)
    /\ Suggestion.ID (auditError c err) = auditErrorID c
    /\ HasSuffix (auditErrorID c) "-ERR" = true
    /\ auditErrorID DeviceSecurity = "DEV-ERR"
    /\ Suggestion.Pass (auditError c err) = false
    /\ Suggestion.Severity (auditError c err) = Medium
    /\ Suggestion.Category (auditError c err) = c
    /\ Suggestion.Description (auditError c err)
       = auditErrorPrefix c +:+ Error err
    /\ Contains (Suggestion.Description (auditError c err)) (Error err) = true.
Proof.
  intros Hfail Hothers.
  destruct (aborts w) eqn:Hab.
  { rewrite (calls_aborted zeroPolicy w Hab) in Hfail.
    apply list_elem_of_singleton in Hfail. discriminate Hfail. }
  apply (audit_called zeroPolicy w c p (Err err) Hab) in Hfail as [-> Hres].
  exists (finalReport zeroPolicy w),
         (fun c' => slot c' (auditResult zeroPolicy w c')).
  split; [apply (Run_returns_report zeroPolicy w Hab)|].
  split.
  { intros c' Hne. destruct (auditResult zeroPolicy w c') as [fs|err'] eqn:E;
      [reflexivity|].
    destruct (Hothers c' (policyArg zeroPolicy w c') err' Hne).
    apply (audit_called zeroPolicy w _ _ _ Hab). now split. }
  split; [now rewrite <- Hres|].
  split; [reflexivity|].
  split; [reflexivity|].
  split; [now destruct c|].
  split; [reflexivity|].
  split; [reflexivity|].
  split; [reflexivity|].
  split; [reflexivity|].
  split; [reflexivity|].
  cbn [auditError finding Suggestion.Description].
  rewrite <- (app_empty_r (Error err)) at 1. apply Contains_segment.
Qed.

(** C3, as the code has it: when the fetch of the policy document fails
    with an error whose message holds none of the texts that [isAuthError]
    looks for ("401", "API token invalid", "Unauthorized", "403",
    "Forbidden"), [Run] puts one finding "SYS-001" of high severity that
    did not pass, whose description contains the text of the error, at the
    head of the report, and goes on to call every category auditor, with
    the zero policy where one is taken. *)
Theorem policy_fetch_failure_reported (w : World') (err : error) :
  GetACLHuJSON w = Err err ->
  Forall (fun token => Contains (Error err) token = false)
    ["401"; "API token invalid"; "Unauthorized"; "403"; "Forbidden"] ->
  exists report,
    Run zeroPolicy w = (Some report, None)
    /\ AuditReport.Suggestions report
       = policyUnavailable err
         :: concat ((fun c => slot c (auditResult zeroPolicy w c))
                      <$> categoryOrder)
    /\ Suggestion.ID (policyUnavailable err) = "SYS-001"
    /\ Suggestion.Severity (policyUnavailable err) = High
    /\ Suggestion.Pass (policyUnavailable err) = false
    /\ Contains (Suggestion.Description (policyUnavailable err)) (Error err)
       = true
    /\ policyOf zeroPolicy w = zeroPolicy
    /\ calls zeroPolicy w
       = CallGetACLHuJSON :: (auditCall zeroPolicy w <$> categoryOrder)
         ++ [CallCalculateSummary].
Proof.
  intros Hget Htokens.
  assert (isAuthError (Some err) = false) as Hauth.
  { destruct (isAuthError (Some err)) eqn:E; [|reflexivity].
    apply isAuthError_tokens in E as (token & Hin & Ht).
    rewrite (proj1 (Forall_forall _ _) Htokens token Hin) in Ht.
    discriminate Ht. }
  assert (aborts w = false) as Hab by (unfold aborts; now rewrite Hget).
  exists (finalReport zeroPolicy w).
  split; [apply (Run_returns_report zeroPolicy w Hab)|].
  split.
  { unfold finalReport, policyFindings, slots. rewrite Hget. reflexivity. }
  split; [reflexivity|]. split; [reflexivity|]. split; [reflexivity|].
  split.
  { cbn [policyUnavailable finding Suggestion.Description].
    apply Contains_segment. }
  split; [unfold policyOf; now rewrite Hget|].
  rewrite (calls_completed zeroPolicy w Hab). unfold parseCalls.
  now rewrite Hget.
Qed.

(** C4, as the code has it: when the policy document is fetched and does
    not parse, the report starts with one warning "SYS-002" of low
    severity, and the network and ssh auditors are called: with the zero
    policy when the standardization failed, and with the policy as
    [json.Unmarshal] left it when the decoding failed. *)
Theorem policy_parse_failure (w : World') (aclHuJSON : string) :
  GetACLHuJSON w = Ok aclHuJSON ->
  (forall err, Standardize w aclHuJSON = Err err ->
     Run zeroPolicy w = (Some (finalReport zeroPolicy w), None)
     /\ AuditReport.Suggestions (finalReport zeroPolicy w)
        = standardizeWarning err :: slots zeroPolicy w
     /\ Suggestion.ID (standardizeWarning err) = "SYS-002"
     /\ Suggestion.Severity (standardizeWarning err) = Low
     /\ CallAudit NetworkExposure (Some zeroPolicy) (NetworkAudit w zeroPolicy)
          ∈ calls zeroPolicy w
     /\ CallAudit SSHSecurity (Some zeroPolicy) (SSHAudit w zeroPolicy)
          ∈ calls zeroPolicy w
     /\ forall c q res, CallAudit c (Some q) res ∈ calls zeroPolicy w ->
          q = zeroPolicy)
  /\ (forall standardizedACL policy err,
        Standardize w aclHuJSON = Ok standardizedACL ->
        Unmarshal w standardizedACL zeroPolicy = (policy, Some err) ->
        Run zeroPolicy w = (Some (finalReport zeroPolicy w), None)
        /\ AuditReport.Suggestions (finalReport zeroPolicy w)
           = unmarshalWarning err :: slots zeroPolicy w
        /\ Suggestion.ID (unmarshalWarning err) = "SYS-002"
        /\ Suggestion.Severity (unmarshalWarning err) = Low
        /\ CallAudit NetworkExposure (Some policy) (NetworkAudit w policy)
             ∈ calls zeroPolicy w
        /\ CallAudit SSHSecurity (Some policy) (SSHAudit w policy)
             ∈ calls zeroPolicy w
        /\ forall c q res, CallAudit c (Some q) res ∈ calls zeroPolicy w ->
             q = policy).
Proof.
  intros Hget.
  assert (aborts w = false) as Hab by (unfold aborts; now rewrite Hget).
  assert (forall c q res, CallAudit c (Some q) res ∈ calls zeroPolicy w ->
            q = policyOf zeroPolicy w) as Honly.
  { intros c q res Hin.
    apply (audit_called zeroPolicy w _ _ _ Hab) in Hin as [Hq _].
    destruct c; cbn in Hq; congruence. }
  assert (CallAudit NetworkExposure (Some (policyOf zeroPolicy w))
            (NetworkAudit w (policyOf zeroPolicy w)) ∈ calls zeroPolicy w) as Hnet
    by now apply (audit_called zeroPolicy w _ _ _ Hab).
  assert (CallAudit SSHSecurity (Some (policyOf zeroPolicy w))
            (SSHAudit w (policyOf zeroPolicy w)) ∈ calls zeroPolicy w) as Hssh
    by now apply (audit_called zeroPolicy w _ _ _ Hab).
  split.
  - intros err Hstd.
    assert (policyOf zeroPolicy w = zeroPolicy) as Hp
      by (unfold policyOf; now rewrite Hget, Hstd).
    rewrite Hp in Hnet, Hssh, Honly.
    split; [apply (Run_returns_report zeroPolicy w Hab)|].
    split; [unfold finalReport, policyFindings; now rewrite Hget, Hstd|].
    repeat split; assumption.
  - intros std policy err Hstd Hun.
    assert (policyOf zeroPolicy w = policy) as Hp
      by (unfold policyOf; now rewrite Hget, Hstd, Hun).
    rewrite Hp in Hnet, Hssh, Honly.
    split; [apply (Run_returns_report zeroPolicy w Hab)|].
    split; [unfold finalReport, policyFindings; now rewrite Hget, Hstd, Hun|].
    repeat split; assumption.
Qed.

(** C9, as the code has it: every run fetches the policy document once,
    first; a run that the fetch does not stop with an authentication
    failure then parses the document, calls the category auditors one at a
    time in the order access-control, authentication, device, network,
    ssh, logging/admin, dns, and computes the summary once, last; its
    report holds the findings of the first part and then what each
    category gave, in that order, and its summary is the one computed from
    these findings. *)
Theorem run_order (w : World') :
  categoryOrder
  = [AccessControl; Authentication; DeviceSecurity; NetworkExposure;
     SSHSecurity; LoggingAdmin; DNSConfiguration]
  /\ (exists rest, calls zeroPolicy w = CallGetACLHuJSON :: rest
                   /\ ~ CallGetACLHuJSON ∈ rest)
  /\ (aborts w = false ->
      calls zeroPolicy w
      = CallGetACLHuJSON :: parseCalls w
        ++ (auditCall zeroPolicy w <$> categoryOrder)
        ++ [CallCalculateSummary]
      /\ Forall (fun e => e = CallStandardize \/ e = CallUnmarshal)
           (parseCalls w)
      /\ exists report,
           Run zeroPolicy w = (Some report, None)
           /\ AuditReport.Suggestions report
              = policyFindings zeroPolicy w
                ++ concat ((fun c => slot c (auditResult zeroPolicy w c))
                             <$> categoryOrder)
           /\ AuditReport.Summary report
              = summarize (AuditReport.Suggestions report)).
Proof.
  split; [reflexivity|]. split.
  - destruct (aborts w) eqn:Hab.
    + exists []. rewrite (calls_aborted zeroPolicy w Hab).
      split; [reflexivity|]. intros Hin. now apply elem_of_nil in Hin.
    + eexists. rewrite (calls_completed zeroPolicy w Hab).
      split; [reflexivity|]. intros Hin.
      apply elem_of_app in Hin as [Hin|Hin].
      { pose proof (proj1 (Forall_forall _ _) (parseCalls_kinds w) _ Hin)
          as [E|E]; discriminate E. }
      apply elem_of_app in Hin as [Hin|Hin].
      * apply list_elem_of_fmap in Hin as (c & E & _). discriminate E.
      * apply list_elem_of_singleton in Hin. discriminate Hin.
  - intros Hab. split; [apply (calls_completed zeroPolicy w Hab)|].
    split; [apply parseCalls_kinds|].
    exists (finalReport zeroPolicy w).
    split; [apply (Run_returns_report zeroPolicy w Hab)|].
    split; reflexivity.
Qed.

End RunClaims.

Lemma auth_failure_aborts_witness :
  isAuthError (Some unauthorized) = true
  /\ Run tt authDown = (None, Some (authenticationFailed unauthorized))
  /\ calls tt authDown = [CallGetACLHuJSON].
Proof.
  split; [vm_compute; reflexivity|].
  destruct (auth_failure_aborts tt authDown unauthorized) as (Hrun & Hcalls & _).
  - reflexivity.
  - vm_compute. reflexivity.
  - split; assumption.
Defined.

Lemma category_failure_becomes_finding_witness :
  CallAudit DeviceSecurity None (Err connectionReset) ∈ calls tt deviceDown
  /\ exists report, Run tt deviceDown = (Some report, None).
Proof.
  assert (calls tt deviceDown
          = [CallGetACLHuJSON; CallStandardize; CallUnmarshal;
             CallAudit AccessControl None (Ok []);
             CallAudit Authentication None (Ok []);
             CallAudit DeviceSecurity None (Err connectionReset);
             CallAudit NetworkExposure (Some tt) (Ok []);
             CallAudit SSHSecurity (Some tt) (Ok []);
             CallAudit LoggingAdmin None (Ok []);
             CallAudit DNSConfiguration None (Ok []);
             CallCalculateSummary]) as Hcalls by (vm_compute; reflexivity).
  assert (CallAudit DeviceSecurity None (Err connectionReset)
            ∈ calls tt deviceDown) as Hin.
  { rewrite Hcalls. elem_found. }
  split; [exact Hin|].
  destruct (category_failure_becomes_finding tt deviceDown DeviceSecurity None
              connectionReset Hin) as (report & _ & Hrun & _).
  - intros c' p' err' Hne Hin'. rewrite Hcalls in Hin'.
    repeat (apply elem_of_cons in Hin' as [Hin'|Hin'];
            [try discriminate Hin'; injection Hin' as -> _ _; now apply Hne|]).
    now apply elem_of_nil in Hin'.
  - exists report. exact Hrun.
Defined.

(** C3, as stated, fails, twice.  After a fetch that fails on a reset
    connection, the one finding the orchestrator made is "SYS-001" of high
    severity; the report has no finding of medium severity with an ID in
    "-ERR".  And after a fetch that fails on a reset connection whose
    local port is 40312, an error that has nothing to do with credentials
    but whose text holds "403", the run stops with the
    authentication-failure error: no report, no finding, no auditor
    called. *)
Lemma policy_fetch_failure_not_category_error :
  (GetACLHuJSON fetchDown = Err connectionReset
   /\ Run tt fetchDown = (Some (finalReport tt fetchDown), None)
   /\ (fun s => (Suggestion.ID s, Suggestion.Severity s, Suggestion.Pass s))
        <$> AuditReport.Suggestions (finalReport tt fetchDown)
      = [("SYS-001", High, false)]
   /\ ~ (exists s, s ∈ AuditReport.Suggestions (finalReport tt fetchDown)
                   /\ HasSuffix (Suggestion.ID s) "-ERR" = true
                   /\ Suggestion.Severity s = Medium
                   /\ Suggestion.Pass s = false))
  /\ GetACLHuJSON portDown = Err portReset
  /\ Error portReset
     = "read tcp 10.0.0.5:40312->192.0.2.1:443: read: connection reset by peer"
  /\ Contains (Error portReset) "403" = true
  /\ Run tt portDown = (None, Some (authenticationFailed portReset))
  /\ calls tt portDown = [CallGetACLHuJSON].
Proof.
  split.
  - split; [reflexivity|].
    split; [vm_compute; reflexivity|]. split; [vm_compute; reflexivity|].
    intros (s & Hin & _ & Hsev & _).
    change (AuditReport.Suggestions (finalReport tt fetchDown))
      with [policyUnavailable connectionReset] in Hin.
    apply list_elem_of_singleton in Hin. subst s. discriminate Hsev.
  - split; [reflexivity|]. split; [reflexivity|].
    split; [vm_compute; reflexivity|].
    split; vm_compute; reflexivity.
Qed.

Lemma policy_fetch_failure_reported_witness :
  Forall (fun token => Contains (Error connectionReset) token = false)
    ["401"; "API token invalid"; "Unauthorized"; "403"; "Forbidden"]
  /\ exists report,
       Run tt fetchDown = (Some report, None)
       /\ AuditReport.Suggestions report = [policyUnavailable connectionReset].
Proof.
  assert (Forall (fun token => Contains (Error connectionReset) token = false)
            ["401"; "API token invalid"; "Unauthorized"; "403"; "Forbidden"])
    as Htokens.
  { repeat (apply Forall_cons; split; [vm_compute; reflexivity|]).
    apply Forall_nil. exact I. }
  split; [exact Htokens|].
  destruct (policy_fetch_failure_reported tt fetchDown connectionReset
              eq_refl Htokens)
    as (report & Hrun & Hsugg & _).
  exists report. split; [exact Hrun|]. rewrite Hsugg. reflexivity.
Defined.

(** C4, as stated, fails: on a document of plain JSON that has a number
    where the list of rules belongs, the decoder returned an error after
    it had filled the groups, and the network and ssh auditors were called
    with that policy, not with the zero value. *)
Lemma parse_failure_policy_not_zero :
  GetACLHuJSON halfDecoded = Ok numberForRules
  /\ Standardize halfDecoded numberForRules = Ok numberForRules
  /\ Unmarshal halfDecoded numberForRules []
     = (["group:admins"], Some numberForRulesError)
  /\ calls [] halfDecoded
  = [CallGetACLHuJSON; CallStandardize; CallUnmarshal;
     CallAudit AccessControl None (Ok []);
     CallAudit Authentication None (Ok []);
     CallAudit DeviceSecurity None (Ok []);
     CallAudit NetworkExposure (Some ["group:admins"]) (Ok []);
     CallAudit SSHSecurity (Some ["group:admins"]) (Ok []);
     CallAudit LoggingAdmin None (Ok []);
     CallAudit DNSConfiguration None (Ok []);
     CallCalculateSummary]
  /\ Suggestion.ID <$> AuditReport.Suggestions (finalReport [] halfDecoded)
     = ["SYS-002"]
  /\ ~ (exists res, CallAudit NetworkExposure (Some []) res
                      ∈ calls [] halfDecoded)
  /\ ~ (exists res, CallAudit SSHSecurity (Some []) res
                      ∈ calls [] halfDecoded).
Proof.
  assert (calls [] halfDecoded
          = [CallGetACLHuJSON; CallStandardize; CallUnmarshal;
             CallAudit AccessControl None (Ok []);
             CallAudit Authentication None (Ok []);
             CallAudit DeviceSecurity None (Ok []);
             CallAudit NetworkExposure (Some ["group:admins"]) (Ok []);
             CallAudit SSHSecurity (Some ["group:admins"]) (Ok []);
             CallAudit LoggingAdmin None (Ok []);
             CallAudit DNSConfiguration None (Ok []);
             CallCalculateSummary]) as Hcalls by (vm_compute; reflexivity).
  split; [reflexivity|]. split; [reflexivity|].
  split; [vm_compute; reflexivity|].
  split; [exact Hcalls|]. split; [vm_compute; reflexivity|].
  split; intros (res & Hin); rewrite Hcalls in Hin;
    repeat (apply elem_of_cons in Hin as [Hin|Hin]; [discriminate Hin|]);
    now apply elem_of_nil in Hin.
Qed.

Lemma policy_parse_failure_witness :
  Run [] halfDecoded = (Some (finalReport [] halfDecoded), None)
  /\ CallAudit NetworkExposure (Some ["group:admins"]) (Ok [])
       ∈ calls [] halfDecoded.
Proof.
  destruct (policy_parse_failure [] halfDecoded numberForRules eq_refl)
    as [_ Hdecode].
  assert (Unmarshal halfDecoded numberForRules []
          = (["group:admins"], Some numberForRulesError)) as Hun
    by (vm_compute; reflexivity).
  destruct (Hdecode numberForRules ["group:admins"] numberForRulesError
              eq_refl Hun) as (Hrun & _ & _ & _ & Hnet & _).
  split; [exact Hrun|exact Hnet].
Defined.

(** C9, as stated, fails: a run that the fetch stops with an
    authentication failure calls no auditor and computes no summary. *)
Lemma aborted_run_calls_nothing_else :
  Run tt authDown = (None, Some (authenticationFailed unauthorized))
  /\ calls tt authDown = [CallGetACLHuJSON]
  /\ ~ CallCalculateSummary ∈ calls tt authDown
  /\ ~ (exists c p res, CallAudit c p res ∈ calls tt authDown).
Proof.
  assert (calls tt authDown = [CallGetACLHuJSON]) as Hcalls
    by (vm_compute; reflexivity).
  split; [vm_compute; reflexivity|]. split; [exact Hcalls|].
  rewrite Hcalls. split.
  - intros Hin. apply list_elem_of_singleton in Hin. discriminate Hin.
  - intros (c & p & res & Hin). apply list_elem_of_singleton in Hin.
    discriminate Hin.
Qed.

Lemma run_order_witness :
  aborts deviceDown = false
  /\ calls tt deviceDown
     = CallGetACLHuJSON :: parseCalls deviceDown
       ++ (auditCall tt deviceDown <$> categoryOrder)
       ++ [CallCalculateSummary].
Proof.
  split; [reflexivity|].
  exact (proj1 (proj2 (proj2 (run_order tt deviceDown)) eq_refl)).
Defined.

(** * Further properties *)

(** ** The shape of slugs *)

Lemma prefix_nil (s : string) : String.prefix EmptyString s = true.
Proof. now destruct s. Qed.

Lemma prefix_cons (a b : ascii) (p s : string) :
  String.prefix (String a p) (String b s) = Ascii.eqb b a && String.prefix p s.
Proof.
  change (String.prefix (String a p) (String b s))
    with (if ascii_dec a b then String.prefix p s else false).
  destruct (ascii_dec a b) as [->|Hne].
  - now rewrite Ascii.eqb_refl.
  - assert (Ascii.eqb b a = false) as -> by (apply Ascii.eqb_neq; congruence).
    reflexivity.
Qed.

Lemma prefix_hyphen (s : string) :
  String.prefix "-" s
  = match s with String a _ => isHyphen a | EmptyString => false end.
Proof.
  destruct s as [|a r]; [reflexivity|].
  rewrite prefix_cons, prefix_nil. apply andb_true_r.
Qed.

Lemma prefix_double (s : string) :
  String.prefix "--" s
  = match s with
    | String a (String b _) => isHyphen a && isHyphen b
    | _ => false
    end.
Proof.
  destruct s as [|a [|b r]]; [reflexivity| |].
  - rewrite prefix_cons. apply andb_false_r.
  - now rewrite !prefix_cons, prefix_nil, andb_true_r.
Qed.

Lemma Contains_double (s : string) : Contains s "--" = hasDouble s.
Proof.
  unfold Contains, Index.
  assert (forall i, 0 <= i -> (0 <=? indexFrom i s "--") = hasDouble s) as H;
    [|apply H; lia].
  induction s as [|a r IH]; intros i Hi; [reflexivity|].
  rewrite indexFrom_unfold, prefix_double.
  destruct r as [|b r']; [reflexivity|].
  cbn [hasDouble]. destruct (isHyphen a && isHyphen b).
  - cbn. apply Z.leb_le. exact Hi.
  - cbn [orb]. apply IH. lia.
Qed.

Lemma rev_app_eq (s : string) : forall t, String.rev_app s t = String.rev s +:+ t.
Proof.
  unfold String.rev. induction s as [|a s IH]; intros t; [reflexivity|].
  cbn [String.rev_app]. rewrite IH, (IH (String a EmptyString)).
  now rewrite app_assoc_str.
Qed.

Lemma rev_cons (a : ascii) (s : string) :
  String.rev (String a s) = String.rev s +:+ String a EmptyString.
Proof. unfold String.rev at 1. cbn [String.rev_app]. apply rev_app_eq. Qed.

Lemma rev_snoc (s : string) (a : ascii) :
  String.rev (s +:+ String a EmptyString) = String a (String.rev s).
Proof.
  induction s as [|b s IH]; [reflexivity|].
  now rewrite app_cons, !rev_cons, IH.
Qed.

Lemma rev_involutive (s : string) : String.rev (String.rev s) = s.
Proof.
  induction s as [|a s IH]; [reflexivity|]. now rewrite rev_cons, rev_snoc, IH.
Qed.

Lemma allBytes_snoc (p : ascii -> bool) (s : string) (a : ascii) :
  allBytes p (s +:+ String a EmptyString) = allBytes p s && p a.
Proof.
  induction s as [|b s IH]; cbn [allBytes].
  - rewrite app_empty_l. cbn. now rewrite andb_true_r.
  - rewrite app_cons. cbn [allBytes]. now rewrite IH, andb_assoc.
Qed.

Lemma allBytes_rev (p : ascii -> bool) (s : string) :
  allBytes p (String.rev s) = allBytes p s.
Proof.
  induction s as [|a s IH]; [reflexivity|].
  rewrite rev_cons, allBytes_snoc, IH. cbn. apply andb_comm.
Qed.

Lemma firstHyphen_snoc (s : string) (a : ascii) :
  firstHyphen (s +:+ String a EmptyString)
  = match s with EmptyString => isHyphen a | _ => firstHyphen s end.
Proof. now destruct s. Qed.

Lemma lastHyphen_snoc (s : string) (a : ascii) :
  lastHyphen (s +:+ String a EmptyString) = isHyphen a.
Proof.
  induction s as [|b s IH]; [reflexivity|].
  rewrite app_cons. cbn [lastHyphen]. rewrite IH.
  destruct s; reflexivity.
Qed.

Lemma lastHyphen_rev (s : string) : lastHyphen (String.rev s) = firstHyphen s.
Proof. destruct s as [|a s]; [reflexivity|]. now rewrite rev_cons, lastHyphen_snoc. Qed.

Lemma firstHyphen_rev (s : string) : firstHyphen (String.rev s) = lastHyphen s.
Proof. now rewrite <- lastHyphen_rev, rev_involutive. Qed.

Lemma hasDouble_cons (a : ascii) (s : string) :
  hasDouble (String a s) = (isHyphen a && firstHyphen s) || hasDouble s.
Proof. destruct s; [|reflexivity]. cbn. now rewrite andb_false_r. Qed.

Lemma hasDouble_snoc (s : string) (a : ascii) :
  hasDouble (s +:+ String a EmptyString)
  = hasDouble s || (lastHyphen s && isHyphen a).
Proof.
  induction s as [|b s IH]; [reflexivity|].
  rewrite app_cons, !hasDouble_cons, IH, firstHyphen_snoc.
  destruct s as [|c s]; cbn [firstHyphen hasDouble lastHyphen].
  - now rewrite andb_false_r, !orb_false_r.
  - rewrite orb_assoc. reflexivity.
Qed.

Lemma hasDouble_rev (s : string) : hasDouble (String.rev s) = hasDouble s.
Proof.
  induction s as [|a s IH]; [reflexivity|].
  rewrite rev_cons, hasDouble_snoc, hasDouble_cons, IH, lastHyphen_rev.
  rewrite orb_comm. f_equal. apply andb_comm.
Qed.

Lemma HasSuffix_hyphen (s : string) : HasSuffix s "-" = lastHyphen s.
Proof.
  unfold HasSuffix. change (String.rev "-") with "-".
  rewrite prefix_hyphen. fold (firstHyphen (String.rev s)). apply firstHyphen_rev.
Qed.

(** [trimLeftByte] and [Trim] with the hyphen *)
Lemma trimLeft_shape (s : string) :
  firstHyphen (trimLeftByte "-" s) = false
  /\ (lastHyphen s = false -> lastHyphen (trimLeftByte "-" s) = false)
  /\ (hasDouble s = false -> hasDouble (trimLeftByte "-" s) = false)
  /\ (forall p, allBytes p s = true -> allBytes p (trimLeftByte "-" s) = true).
Proof.
  induction s as [|a s (IH1 & IH2 & IH3 & IH4)]; [now repeat split|].
  cbn [trimLeftByte]. fold (isHyphen a). destruct (isHyphen a) eqn:Ha.
  - split; [exact IH1|]. split; [|split].
    + intros Hl. apply IH2. destruct s; [reflexivity|exact Hl].
    + rewrite hasDouble_cons. intros Hd. apply IH3.
      now apply orb_false_iff in Hd.
    + intros p Hp. apply IH4. cbn in Hp. now apply andb_true_iff in Hp.
  - cbn [firstHyphen]. now repeat split.
Qed.

Lemma trimLeft_id (s : string) : firstHyphen s = false -> trimLeftByte "-" s = s.
Proof.
  destruct s as [|a s]; [reflexivity|]. cbn. unfold isHyphen. now intros ->.
Qed.

Lemma Trim_shape (s : string) :
  firstHyphen (Trim s "-") = false
  /\ lastHyphen (Trim s "-") = false
  /\ (hasDouble s = false -> hasDouble (Trim s "-") = false)
  /\ (forall p, allBytes p s = true -> allBytes p (Trim s "-") = true).
Proof.
  unfold Trim.
  destruct (trimLeft_shape s) as (F1 & _ & D1 & A1).
  destruct (trimLeft_shape (String.rev (trimLeftByte "-" s))) as (F2 & L2 & D2 & A2).
  rewrite lastHyphen_rev in L2. specialize (L2 F1).
  rewrite hasDouble_rev in D2.
  split; [now rewrite firstHyphen_rev|].
  split; [now rewrite lastHyphen_rev|].
  split.
  - intros Hd. rewrite hasDouble_rev. auto.
  - intros p Hp. rewrite allBytes_rev. apply A2. rewrite allBytes_rev. auto.
Qed.

Lemma Trim_id (s : string) :
  firstHyphen s = false -> lastHyphen s = false -> Trim s "-" = s.
Proof.
  intros Hf Hl. unfold Trim. rewrite (trimLeft_id s Hf).
  rewrite trimLeft_id by now rewrite firstHyphen_rev.
  apply rev_involutive.
Qed.

Lemma alnum_not_hyphen (a : ascii) : isLowerAlnum a = true -> isHyphen a = false.
Proof.
  unfold isHyphen. destruct (Ascii.eqb_spec a "-") as [->|]; [|reflexivity].
  vm_compute. discriminate.
Qed.

Lemma slugByte_cases (a : ascii) :
  slugByte a = true -> isLowerAlnum a = false -> a = "-"%char.
Proof.
  unfold slugByte. intros H Hn. rewrite Hn in H. cbn in H.
  now apply Ascii.eqb_eq in H.
Qed.

Lemma slugByte_plain (a : ascii) :
  slugByte a = true ->
  isASCIIByte a = true /\ lowerByte a = a
  /\ Ascii.eqb a "'" = false /\ Ascii.eqb a "(" = false.
Proof.
  destruct a as [[] [] [] [] [] [] [] []]; vm_compute;
    intros; try discriminate; repeat split; reflexivity.
Qed.

(** the replacement of runs *)
Lemma hyphen_app (s : string) : "-" +:+ s = String "-" s.
Proof. reflexivity. Qed.

Lemma replaceRuns_shape (s : string) :
  forall b,
    allBytes slugByte (replaceRuns b "-" s) = true
    /\ hasDouble (replaceRuns b "-" s) = false
    /\ (b = true -> firstHyphen (replaceRuns b "-" s) = false).
Proof.
  induction s as [|a s IH]; intros b; [now repeat split|].
  cbn [replaceRuns]. destruct (isLowerAlnum a) eqn:Ha.
  - destruct (IH false) as (A & D & _).
    assert (slugByte a = true) as Hs by (unfold slugByte; now rewrite Ha).
    cbn [allBytes firstHyphen]. rewrite hasDouble_cons.
    rewrite Hs, A, D, (alnum_not_hyphen a Ha). now repeat split.
  - destruct b.
    + apply IH.
    + destruct (IH true) as (A & D & F). rewrite hyphen_app.
      cbn [allBytes]. rewrite hasDouble_cons, A, D, (F eq_refl).
      repeat split; try reflexivity. discriminate.
Qed.

Lemma replaceRuns_id (s : string) :
  allBytes slugByte s = true -> hasDouble s = false ->
  replaceRuns false "-" s = s
  /\ (firstHyphen s = false -> replaceRuns true "-" s = s).
Proof.
  induction s as [|a s IH]; intros Hall Hd; [now split|].
  cbn [allBytes] in Hall. apply andb_true_iff in Hall as [Ha Hall].
  rewrite hasDouble_cons in Hd. apply orb_false_iff in Hd as [Hadj Hd].
  destruct (IH Hall Hd) as [IHf IHt].
  cbn [replaceRuns]. destruct (isLowerAlnum a) eqn:Hal.
  - rewrite IHf. now split.
  - pose proof (slugByte_cases a Ha Hal) as ->. cbn in Hadj.
    rewrite hyphen_app, (IHt Hadj). split; [reflexivity|].
    cbn. discriminate.
Qed.

Lemma isSlug_iff (s : string) :
  isSlug s = true
  <-> allBytes slugByte s = true /\ firstHyphen s = false
      /\ lastHyphen s = false /\ hasDouble s = false.
Proof.
  unfold isSlug. rewrite prefix_hyphen, HasSuffix_hyphen, Contains_double.
  fold (firstHyphen s). rewrite !andb_true_iff, !negb_true_iff. tauto.
Qed.

Lemma indexFrom_absent (c : ascii) (p : ascii -> bool) (s : string) :
  p c = false -> allBytes p s = true ->
  forall i, indexFrom i s (String c EmptyString) = -1.
Proof.
  intros Hc. induction s as [|a s IH]; intros Hall i; [reflexivity|].
  cbn [allBytes] in Hall. apply andb_true_iff in Hall as [Ha Hall].
  rewrite indexFrom_unfold, prefix_cons.
  assert (Ascii.eqb a c = false) as ->.
  { apply Ascii.eqb_neq. intros ->. congruence. }
  cbn [andb]. now apply IH.
Qed.

Lemma slug_plain (s : string) :
  allBytes slugByte s = true ->
  isASCII s = true /\ mapBytes lowerByte s = s
  /\ ReplaceAll s "'" EmptyString = s.
Proof.
  induction s as [|a s IH]; intros Hall; [now repeat split|].
  cbn [allBytes] in Hall. apply andb_true_iff in Hall as [Ha Hall].
  destruct (IH Hall) as (H1 & H2 & H3).
  destruct (slugByte_plain a Ha) as (B1 & B2 & B3 & _).
  cbn [isASCII mapBytes ReplaceAll]. rewrite B1, B2, B3, H1, H2, H3.
  now repeat split.
Qed.

Section SlugShape.
Context `{UnicodeCase}.

Lemma slugify_isSlug (title : string) : isSlug (slugify title) = true.
Proof.
  apply isSlug_iff. unfold slugify, ReplaceAllNonAlnum.
  match goal with |- context [replaceRuns false "-" ?x] => generalize x end.
  intros x. destruct (replaceRuns_shape x false) as (A & D & _).
  destruct (Trim_shape (replaceRuns false "-" x)) as (F & L & D' & A').
  auto.
Qed.

Lemma slug_fixed (s : string) : isSlug s = true -> slugify s = s.
Proof.
  intros Hs. apply isSlug_iff in Hs as (A & F & L & D).
  destruct (slug_plain s A) as (P1 & P2 & P3).
  unfold slugify, ReplaceAllNonAlnum, Index.
  rewrite (indexFrom_absent "(" slugByte s eq_refl A).
  change (0 <? -1) with false. cbv iota.
  unfold ToLower. rewrite P1, P2, !P3.
  rewrite (proj1 (replaceRuns_id s A D)). now apply Trim_id.
Qed.

(** X1: whatever the title, the slug that [slugify] gives is made of the
    bytes [a-z], [0-9] and the hyphen only, neither starts nor ends with a
    hyphen, and has no two hyphens in a row. *)
Theorem slugify_shape (title : string) :
  allBytes slugByte (slugify title) = true
  /\ String.prefix "-" (slugify title) = false
  /\ HasSuffix (slugify title) "-" = false
  /\ Contains (slugify title) "--" = false.
Proof.
  pose proof (slugify_isSlug title) as Hs. unfold isSlug in Hs.
  rewrite !andb_true_iff, !negb_true_iff in Hs. tauto.
Qed.

(** X2: [slugify] leaves every string of the slug shape as it is; so it
    is idempotent: the slug of a slug is that slug. *)
Theorem slugify_idempotent (s : string) :
  (isSlug s = true -> slugify s = s)
  /\ slugify (slugify s) = slugify s.
Proof.
  split; [apply slug_fixed|]. apply slug_fixed, slugify_isSlug.
Qed.

End SlugShape.

Lemma slugify_idempotent_witness :
  isSlug "no-acl-tests-defined" = true
  /\ @slugify asciiCase "no-acl-tests-defined" = "no-acl-tests-defined".
Proof.
  split; [vm_compute; reflexivity|].
  apply (proj1 (@slugify_idempotent asciiCase "no-acl-tests-defined")).
  vm_compute. reflexivity.
Defined.

(** ** Segments of strings and the authentication class *)

Lemma prefix_split (p s : string) :
  String.prefix p s = true -> exists b, s = p +:+ b.
Proof.
  revert s. induction p as [|a p IH]; intros s Hp.
  - now exists s.
  - destruct s as [|c s]; [discriminate Hp|].
    rewrite prefix_cons in Hp. apply andb_true_iff in Hp as [Hac Hp].
    apply Ascii.eqb_eq in Hac as ->. destruct (IH s Hp) as [b ->].
    now exists b.
Qed.

Lemma indexFrom_split (s sub : string) :
  forall i, 0 <= i -> 0 <= indexFrom i s sub ->
  exists a b, s = a +:+ sub +:+ b.
Proof.
  induction s as [|c s IH]; intros i Hi Hidx; rewrite indexFrom_unfold in Hidx.
  - destruct (String.prefix sub EmptyString) eqn:Hp; [|lia].
    destruct (prefix_split _ _ Hp) as [b Hb]. now exists EmptyString, b.
  - destruct (String.prefix sub (String c s)) eqn:Hp.
    + destruct (prefix_split _ _ Hp) as [b Hb]. now exists EmptyString, b.
    + destruct (IH (i + 1)) as (a & b & ->); [lia|exact Hidx|].
      now exists (String c a), b.
Qed.

(** [strings.Contains] is true exactly of the segments of a string. *)
Lemma Contains_iff (s sub : string) :
  Contains s sub = true <-> exists a b, s = a +:+ sub +:+ b.
Proof.
  split.
  - unfold Contains, Index. intros Hc. apply Z.leb_le in Hc.
    now apply (indexFrom_split s sub 0).
  - intros (a & b & ->). apply Contains_segment.
Qed.

Lemma Contains_trans (s x t : string) :
  Contains s x = true -> Contains x t = true -> Contains s t = true.
Proof.
  rewrite !Contains_iff. intros (a & b & ->) (c & d & ->).
  exists (a +:+ c), (d +:+ b). now rewrite !app_assoc_str.
Qed.

Lemma isAuthError_mono (err outer : error) :
  Contains (Error outer) (Error err) = true ->
  isAuthError (Some err) = true ->
  isAuthError (Some outer) = true.
Proof.
  intros Hc Hauth.
  apply isAuthError_tokens in Hauth as (token & Hin & Ht).
  apply isAuthError_tokens. exists token. split; [exact Hin|].
  exact (Contains_trans _ _ _ Hc Ht).
Qed.

(** X11: an error that [isAuthError] accepts stays accepted under any
    error whose text contains its text, so under every [fmt.Errorf] that
    wraps it with [%w] or [%v]; the error that [Run] returns on an
    authentication failure is itself of the authentication class. *)
Theorem isAuthError_survives_wrapping (err : error) :
  isAuthError (Some err) = true ->
  (forall outer, Contains (Error outer) (Error err) = true ->
     isAuthError (Some outer) = true)
  /\ (forall before after,
        isAuthError (Some (wrapError (before +:+ Error err +:+ after) err)) = true)
  /\ isAuthError (Some (authenticationFailed err)) = true.
Proof.
  intros Hauth. split; [|split].
  - intros outer Hc. exact (isAuthError_mono err outer Hc Hauth).
  - intros before after. apply (isAuthError_mono err); [|exact Hauth].
    apply Contains_segment.
  - apply (isAuthError_mono err); [|exact Hauth]. apply Contains_segment.
Qed.

Lemma isAuthError_survives_wrapping_witness :
  isAuthError (Some unauthorized) = true
  /\ isAuthError
       (Some (wrapError
                ("failed to get DNS preferences: " +:+ Error unauthorized
                 +:+ EmptyString) unauthorized)) = true.
Proof.
  assert (isAuthError (Some unauthorized) = true) as Ha by (vm_compute; reflexivity).
  split; [exact Ha|].
  exact (proj1 (proj2 (isAuthError_survives_wrapping unauthorized Ha))
           "failed to get DNS preferences: " EmptyString).
Defined.

(** ** The parenthetical qualifier of a title *)

Lemma rev_app_distr (s t : string) :
  String.rev (s +:+ t) = String.rev t +:+ String.rev s.
Proof.
  induction s as [|a s IH].
  - now rewrite app_empty_l, app_empty_r.
  - now rewrite app_cons, !rev_cons, IH, app_assoc_str.
Qed.

Lemma isASCII_allBytes (s : string) : isASCII s = allBytes isASCIIByte s.
Proof. induction s as [|a s IH]; [reflexivity|]. cbn. now rewrite IH. Qed.

Lemma allBytes_app (p : ascii -> bool) (s t : string) :
  allBytes p (s +:+ t) = allBytes p s && allBytes p t.
Proof.
  induction s as [|a s IH]; [reflexivity|].
  rewrite app_cons. cbn [allBytes]. now rewrite IH, andb_assoc.
Qed.

Lemma ascii_not_space2 (a b : ascii) :
  isASCIIByte a = true -> space2 a b = false.
Proof.
  destruct a as [[] [] [] [] [] [] [] []]; intros Ha; try discriminate Ha;
    reflexivity.
Qed.

Lemma ascii_not_space3 (a b c : ascii) :
  isASCIIByte a = true -> space3 a b c = false.
Proof.
  destruct a as [[] [] [] [] [] [] [] []]; intros Ha; try discriminate Ha;
    reflexivity.
Qed.

Lemma trimLeftSpace_ascii (s : string) :
  isASCII s = true -> trimLeftSpace s = dropSpaces s.
Proof.
  induction s as [|a r IH]; intros Hs; [reflexivity|].
  cbn [isASCII] in Hs. apply andb_true_iff in Hs as [Ha Hr].
  cbn [trimLeftSpace dropSpaces]. destruct (asciiSpace a); [now apply IH|].
  destruct r as [|b r2]; [reflexivity|].
  rewrite (ascii_not_space2 a b Ha).
  destruct r2 as [|c r3]; [reflexivity|].
  now rewrite (ascii_not_space3 a b c Ha).
Qed.

Lemma trimRevSpace_ascii (s : string) :
  isASCII s = true -> trimRevSpace s = dropSpaces s.
Proof.
  induction s as [|c r IH]; intros Hs; [reflexivity|].
  cbn [isASCII] in Hs. apply andb_true_iff in Hs as [Hc Hr].
  cbn [trimRevSpace dropSpaces]. destruct (asciiSpace c); [now apply IH|].
  destruct r as [|b r2]; [reflexivity|].
  cbn [isASCII] in Hr. apply andb_true_iff in Hr as [Hb Hr2].
  rewrite (ascii_not_space2 b c Hb).
  destruct r2 as [|a r3]; [reflexivity|].
  cbn [isASCII] in Hr2. apply andb_true_iff in Hr2 as [Ha _].
  now rewrite (ascii_not_space3 a b c Ha).
Qed.

Lemma dropSpaces_split (s : string) :
  exists sp, s = sp +:+ dropSpaces s /\ allBytes asciiSpace sp = true.
Proof.
  induction s as [|a r (sp & Hsp & Hall)]; [now exists EmptyString|].
  cbn [dropSpaces]. destruct (asciiSpace a) eqn:Ha.
  - exists (String a sp). rewrite app_cons, <- Hsp. cbn. now rewrite Ha, Hall.
  - now exists EmptyString.
Qed.

Lemma dropSpaces_ascii (s : string) :
  isASCII s = true -> isASCII (dropSpaces s) = true.
Proof.
  destruct (dropSpaces_split s) as (sp & Hsp & _). intros Hs.
  rewrite Hsp, isASCII_allBytes, allBytes_app in Hs.
  rewrite isASCII_allBytes. now apply andb_true_iff in Hs.
Qed.

Lemma isASCII_rev (s : string) : isASCII (String.rev s) = isASCII s.
Proof. now rewrite !isASCII_allBytes, allBytes_rev. Qed.

(** An ASCII string is its trimmed form between two runs of white space. *)
Lemma TrimSpace_split (s : string) :
  isASCII s = true ->
  exists sp1 sp2,
    s = sp1 +:+ TrimSpace s +:+ sp2
    /\ allBytes asciiSpace sp1 = true /\ allBytes asciiSpace sp2 = true
    /\ isASCII (TrimSpace s) = true.
Proof.
  intros Hs. unfold TrimSpace. rewrite (trimLeftSpace_ascii s Hs).
  pose proof (dropSpaces_ascii s Hs) as Hd.
  rewrite trimRevSpace_ascii by now rewrite isASCII_rev.
  destruct (dropSpaces_split s) as (sp1 & H1 & A1).
  destruct (dropSpaces_split (String.rev (dropSpaces s))) as (sp2 & H2 & A2).
  exists sp1, (String.rev sp2). split; [|split; [exact A1|split]].
  - rewrite H1 at 1. f_equal.
    rewrite <- (rev_involutive (dropSpaces s)) at 1.
    rewrite H2 at 1. apply rev_app_distr.
  - now rewrite allBytes_rev.
  - rewrite isASCII_rev. apply dropSpaces_ascii. now rewrite isASCII_rev.
Qed.

Lemma mapBytes_app (f : ascii -> ascii) (s t : string) :
  mapBytes f (s +:+ t) = mapBytes f s +:+ mapBytes f t.
Proof.
  induction s as [|a s IH]; [reflexivity|].
  rewrite app_cons. cbn [mapBytes]. now rewrite IH.
Qed.

Lemma ReplaceAll_app (s t : string) (old : ascii) :
  ReplaceAll (s +:+ t) old EmptyString
  = ReplaceAll s old EmptyString +:+ ReplaceAll t old EmptyString.
Proof.
  induction s as [|a s IH]; [reflexivity|].
  rewrite app_cons. cbn [ReplaceAll]. rewrite IH.
  now destruct (Ascii.eqb a old).
Qed.

Lemma space_byte (a : ascii) :
  asciiSpace a = true ->
  lowerByte a = a /\ Ascii.eqb a "'" = false /\ isLowerAlnum a = false.
Proof.
  destruct a as [[] [] [] [] [] [] [] []]; vm_compute;
    intros; try discriminate; repeat split; reflexivity.
Qed.

Lemma spaces_plain (sp : string) :
  allBytes asciiSpace sp = true ->
  mapBytes lowerByte sp = sp
  /\ ReplaceAll sp "'" EmptyString = sp
  /\ allBytes notAlnum sp = true.
Proof.
  induction sp as [|a sp IH]; intros Hall; [now repeat split|].
  cbn [allBytes] in Hall. apply andb_true_iff in Hall as [Ha Hall].
  destruct (IH Hall) as (H1 & H2 & H3).
  destruct (space_byte a Ha) as (B1 & B2 & B3).
  cbn [mapBytes ReplaceAll allBytes]. unfold notAlnum at 1.
  rewrite B1, B2, B3, H1, H2, H3. now repeat split.
Qed.

(** Runs before the first and after the last alphanumeric byte leave no
    trace in the trimmed replacement. *)
Lemma trimLeft_runs_any (s : string) :
  trimLeftByte "-" (replaceRuns true "-" s)
  = trimLeftByte "-" (replaceRuns false "-" s).
Proof.
  destruct s as [|a s]; [reflexivity|]. cbn [replaceRuns].
  destruct (isLowerAlnum a); reflexivity.
Qed.

Lemma trimLeft_runs_lead (sp s : string) :
  allBytes notAlnum sp = true ->
  forall b,
    trimLeftByte "-" (replaceRuns b "-" (sp +:+ s))
    = trimLeftByte "-" (replaceRuns false "-" s).
Proof.
  induction sp as [|a sp IH]; intros Hall b.
  - rewrite app_empty_l. destruct b; [apply trimLeft_runs_any|reflexivity].
  - cbn [allBytes] in Hall. apply andb_true_iff in Hall as [Ha Hall].
    unfold notAlnum in Ha. apply negb_true_iff in Ha.
    rewrite app_cons. cbn [replaceRuns]. rewrite Ha.
    destruct b; [now apply IH|]. rewrite hyphen_app. cbn [trimLeftByte].
    rewrite Ascii.eqb_refl. now apply IH.
Qed.

Lemma replaceRuns_trail (s sp : string) :
  allBytes notAlnum sp = true ->
  forall b,
    replaceRuns b "-" (s +:+ sp)
    = replaceRuns b "-" s
      +:+ match sp with
          | EmptyString => EmptyString
          | String _ _ => if inRunAfter b s then EmptyString else "-"
          end.
Proof.
  intros Hall. induction s as [|a s IH]; intros b.
  - rewrite app_empty_l. cbn [replaceRuns inRunAfter]. rewrite app_empty_l.
    revert b. induction sp as [|c sp IH]; intros b; [reflexivity|].
    cbn [allBytes] in Hall. apply andb_true_iff in Hall as [Hc Hall].
    unfold notAlnum in Hc. apply negb_true_iff in Hc.
    cbn [replaceRuns]. rewrite Hc.
    specialize (IH Hall true). cbn [inRunAfter] in IH.
    destruct b.
    + rewrite IH. now destruct sp.
    + rewrite IH. destruct sp; [reflexivity|]. now rewrite app_empty_r.
  - rewrite app_cons. cbn [replaceRuns inRunAfter].
    destruct (isLowerAlnum a); cbn [negb].
    + now rewrite IH, app_cons.
    + destruct b; rewrite IH; [reflexivity|]. now rewrite app_assoc_str.
Qed.

Lemma trimLeft_snoc (x : string) :
  trimLeftByte "-" (x +:+ "-")
  = match trimLeftByte "-" x with
    | EmptyString => EmptyString
    | String a u => String a u +:+ "-"
    end.
Proof.
  induction x as [|a x IH]; [reflexivity|].
  rewrite app_cons. cbn [trimLeftByte].
  destruct (Ascii.eqb a "-"); [exact IH|reflexivity].
Qed.

Lemma Trim_snoc (x : string) : Trim (x +:+ "-") "-" = Trim x "-".
Proof.
  unfold Trim. rewrite trimLeft_snoc.
  destruct (trimLeftByte "-" x) as [|a u]; [reflexivity|].
  now rewrite rev_snoc.
Qed.

Lemma Trim_lead (x y : string) :
  trimLeftByte "-" x = trimLeftByte "-" y -> Trim x "-" = Trim y "-".
Proof. unfold Trim. now intros ->. Qed.

(** The trimmed replacement of runs ignores what is outside [[a-z0-9]]
    at either end. *)
Lemma slug_core (sp1 y sp2 : string) :
  allBytes notAlnum sp1 = true -> allBytes notAlnum sp2 = true ->
  Trim (ReplaceAllNonAlnum (sp1 +:+ y +:+ sp2) "-") "-"
  = Trim (ReplaceAllNonAlnum y "-") "-".
Proof.
  intros H1 H2. unfold ReplaceAllNonAlnum.
  rewrite (Trim_lead _ (replaceRuns false "-" (y +:+ sp2)))
    by now apply trimLeft_runs_lead.
  rewrite (replaceRuns_trail y sp2 H2).
  destruct sp2; [now rewrite app_empty_r|].
  destruct (inRunAfter false y); [now rewrite app_empty_r|].
  apply Trim_snoc.
Qed.

Lemma indexFrom_byte (c : ascii) (s : string) :
  forall i, 0 <= i ->
    (0 <=? indexFrom i s (String c EmptyString))
    = negb (allBytes (fun a => negb (Ascii.eqb a c)) s).
Proof.
  induction s as [|a s IH]; intros i Hi; rewrite indexFrom_unfold.
  - reflexivity.
  - rewrite prefix_cons, prefix_nil, andb_true_r. cbn [allBytes].
    destruct (Ascii.eqb a c); cbn [negb andb].
    + apply Z.leb_le. exact Hi.
    + apply IH. lia.
Qed.

Lemma Contains_byte (c : ascii) (s : string) :
  Contains s (String c EmptyString) = false
  <-> allBytes (fun a => negb (Ascii.eqb a c)) s = true.
Proof.
  unfold Contains, Index. rewrite indexFrom_byte by lia.
  now rewrite negb_false_iff.
Qed.

Lemma indexFrom_first (c : ascii) (s r : string) :
  allBytes (fun a => negb (Ascii.eqb a c)) s = true ->
  forall i,
    indexFrom i (s +:+ String c r) (String c EmptyString)
    = i + Z.of_nat (String.length s).
Proof.
  induction s as [|a s IH]; intros Hall i; rewrite indexFrom_unfold.
  - rewrite app_empty_l, prefix_cons, Ascii.eqb_refl, prefix_nil. cbn. lia.
  - cbn [allBytes] in Hall. apply andb_true_iff in Hall as [Ha Hall].
    apply negb_true_iff in Ha.
    rewrite app_cons, prefix_cons, Ha. cbn [andb].
    rewrite (IH Hall). cbn [String.length]. lia.
Qed.

Lemma substring_prefix (s r : string) :
  String.substring 0 (String.length s) (s +:+ r) = s.
Proof.
  induction s as [|a s IH]; [now destruct r|].
  rewrite app_cons. cbn [String.length String.substring]. now rewrite IH.
Qed.

Section Qualifier.
Context `{UnicodeCase}.

Lemma slugify_plain (s : string) :
  Contains s "(" = false ->
  slugify s
  = Trim (ReplaceAllNonAlnum
            (ReplaceAll (ReplaceAll (ToLower s) "'" EmptyString) "'" EmptyString)
            "-") "-".
Proof.
  intros Hc. unfold slugify.
  assert (Index s "(" = -1) as ->; [|reflexivity].
  apply Contains_byte in Hc. unfold Index.
  exact (indexFrom_absent "(" _ s eq_refl Hc 0).
Qed.

Lemma slugify_qualified (t q : string) :
  Contains t "(" = false -> t <> EmptyString ->
  slugify (t +:+ "(" +:+ q)
  = Trim (ReplaceAllNonAlnum
            (ReplaceAll (ReplaceAll (ToLower (TrimSpace t)) "'" EmptyString)
               "'" EmptyString) "-") "-".
Proof.
  intros Hc Hne. unfold slugify. apply Contains_byte in Hc.
  unfold Index. change ("(" +:+ q) with (String "(" q).
  rewrite (indexFrom_first "(" t q Hc 0).
  assert ((0 <? 0 + Z.of_nat (String.length t)) = true) as ->.
  { apply Z.ltb_lt. destruct t; [congruence|]. cbn [String.length]. lia. }
  unfold sliceTo. rewrite Z.add_0_l, Nat2Z.id, substring_prefix. reflexivity.
Qed.

(** X3: a title of ASCII bytes that is not empty and has no opening
    parenthesis keeps its slug when an opening parenthesis and any text
    are put after it: the parenthetical qualifier does not count. *)
Theorem slugify_ignores_qualifier (t q : string) :
  isASCII t = true -> Contains t "(" = false -> t <> EmptyString ->
  slugify (t +:+ "(" +:+ q) = slugify t.
Proof.
  intros Ha Hc Hne.
  rewrite (slugify_qualified t q Hc Hne), (slugify_plain t Hc).
  destruct (TrimSpace_split t Ha) as (sp1 & sp2 & Ht & A1 & A2 & Hcore).
  unfold ToLower. rewrite Ha, Hcore.
  remember (TrimSpace t) as core eqn:E. clear E. subst t.
  destruct (spaces_plain sp1 A1) as (L1 & R1 & N1).
  destruct (spaces_plain sp2 A2) as (L2 & R2 & N2).
  rewrite !mapBytes_app, !ReplaceAll_app, L1, L2, !R1, !R2.
  symmetry. now apply slug_core.
Qed.

End Qualifier.

Lemma slugify_ignores_qualifier_witness :
  @slugify asciiCase ("Tailnet Lock not enabled " +:+ "(" +:+ "Device Security)")
  = @slugify asciiCase "Tailnet Lock not enabled ".
Proof.
  apply (@slugify_ignores_qualifier asciiCase).
  - reflexivity.
  - vm_compute. reflexivity.
  - discriminate.
Defined.

(** ** The steps of the derivation of a slug *)

Lemma lowerByte_plain (a : ascii) :
  isUpper (lowerByte a) = false
  /\ lowerByte (lowerByte a) = lowerByte a
  /\ Ascii.eqb (lowerByte a) "(" = Ascii.eqb a "("
  /\ Ascii.eqb (lowerByte a) "'" = Ascii.eqb a "'"
  /\ asciiSpace (lowerByte a) = asciiSpace a
  /\ isASCIIByte (lowerByte a) = isASCIIByte a.
Proof. each_byte a. Qed.

Lemma allBytes_mapBytes (p : ascii -> bool) (f : ascii -> ascii) (s : string) :
  allBytes p (mapBytes f s) = allBytes (fun a => p (f a)) s.
Proof. induction s as [|a s IH]; [reflexivity|]. simpl. now rewrite IH. Qed.

Lemma allBytes_ext (p q : ascii -> bool) (s : string) :
  (forall a, p a = q a) -> allBytes p s = allBytes q s.
Proof.
  intros Hpq. induction s as [|a s IH]; [reflexivity|]. simpl.
  now rewrite Hpq, IH.
Qed.

Lemma mapBytes_rev (f : ascii -> ascii) (s : string) :
  mapBytes f (String.rev s) = String.rev (mapBytes f s).
Proof.
  induction s as [|a s IH]; [reflexivity|].
  change (mapBytes f (String a s)) with (String (f a) (mapBytes f s)).
  now rewrite !rev_cons, mapBytes_app, IH.
Qed.

Lemma mapBytes_substring (f : ascii -> ascii) (s : string) :
  forall m n,
    String.substring m n (mapBytes f s) = mapBytes f (String.substring m n s).
Proof.
  induction s as [|a s IH]; intros [|m] [|n]; try reflexivity; simpl.
  - now rewrite IH.
  - apply IH.
  - apply IH.
Qed.

Lemma isASCII_substring (s : string) :
  isASCII s = true -> forall m n, isASCII (String.substring m n s) = true.
Proof.
  induction s as [|a s IH]; intros Hs [|m] [|n]; try reflexivity; simpl in *;
    apply andb_true_iff in Hs as [Ha Hs].
  - now rewrite Ha, IH.
  - now apply IH.
  - now apply IH.
Qed.

Lemma lower_dropSpaces (s : string) :
  dropSpaces (mapBytes lowerByte s) = mapBytes lowerByte (dropSpaces s).
Proof.
  induction s as [|a s IH]; [reflexivity|]. simpl.
  destruct (lowerByte_plain a) as (_ & _ & _ & _ & -> & _).
  destruct (asciiSpace a); [exact IH|reflexivity].
Qed.

Lemma lower_ascii (s : string) :
  isASCII (mapBytes lowerByte s) = isASCII s.
Proof.
  induction s as [|a s IH]; [reflexivity|]. simpl.
  destruct (lowerByte_plain a) as (_ & _ & _ & _ & _ & ->). now rewrite IH.
Qed.

Lemma lower_lower (s : string) :
  mapBytes lowerByte (mapBytes lowerByte s) = mapBytes lowerByte s.
Proof.
  induction s as [|a s IH]; [reflexivity|]. simpl.
  destruct (lowerByte_plain a) as (_ & -> & _). now rewrite IH.
Qed.

Lemma prefix_byte (c : ascii) (s : string) :
  String.prefix (String c EmptyString) s
  = match s with String a _ => Ascii.eqb a c | EmptyString => false end.
Proof.
  destruct s as [|a s]; [reflexivity|].
  rewrite prefix_cons, prefix_nil. apply andb_true_r.
Qed.

Lemma lower_indexFrom (s : string) :
  forall i, indexFrom i (mapBytes lowerByte s) "(" = indexFrom i s "(".
Proof.
  induction s as [|a s IH]; intros i; [reflexivity|].
  rewrite (indexFrom_unfold i (String a s)).
  change (mapBytes lowerByte (String a s))
    with (String (lowerByte a) (mapBytes lowerByte s)).
  rewrite indexFrom_unfold, !prefix_byte.
  destruct (lowerByte_plain a) as (_ & _ & -> & _).
  now rewrite IH.
Qed.

Lemma TrimSpace_ascii (s : string) :
  isASCII s = true ->
  TrimSpace s = String.rev (dropSpaces (String.rev (dropSpaces s))).
Proof.
  intros Hs. unfold TrimSpace. rewrite (trimLeftSpace_ascii s Hs).
  rewrite trimRevSpace_ascii; [reflexivity|].
  rewrite isASCII_rev. now apply dropSpaces_ascii.
Qed.

Lemma lower_TrimSpace (s : string) :
  isASCII s = true ->
  TrimSpace (mapBytes lowerByte s) = mapBytes lowerByte (TrimSpace s).
Proof.
  intros Hs. rewrite (TrimSpace_ascii s Hs).
  rewrite TrimSpace_ascii by now rewrite lower_ascii.
  now rewrite lower_dropSpaces, <- mapBytes_rev, lower_dropSpaces, <- mapBytes_rev.
Qed.

Lemma afterFirst_absent (c : ascii) (s : string) :
  allBytes (fun a => negb (Ascii.eqb a c)) s = true -> afterFirst c s = None.
Proof.
  induction s as [|a s IH]; [reflexivity|]. simpl. intros Hs.
  apply andb_true_iff in Hs as [Ha Hs]. apply negb_true_iff in Ha.
  rewrite Ha. now apply IH.
Qed.

Lemma stripQualifier_plain (title : string) :
  Contains title "(" = false -> stripQualifier title = title.
Proof.
  intros Hc. apply Contains_byte in Hc. rewrite <- allBytes_rev in Hc.
  unfold stripQualifier. destruct (String.rev title) as [|a r]; [reflexivity|].
  simpl in Hc. apply andb_true_iff in Hc as [_ Hr].
  rewrite (afterFirst_absent "(" r Hr).
  now destruct a as [[] [] [] [] [] [] [] []].
Qed.

Lemma ReplaceAll_absent (c : ascii) (s : string) :
  allBytes (fun a => negb (Ascii.eqb a c)) s = true ->
  ReplaceAll s c EmptyString = s.
Proof.
  induction s as [|a s IH]; [reflexivity|]. simpl. intros Hs.
  apply andb_true_iff in Hs as [Ha Hs]. apply negb_true_iff in Ha.
  now rewrite Ha, IH.
Qed.

Lemma squeeze_runs (s : string) :
  allBytes (fun a => negb (isUpper a)) s = true ->
  forall b, squeeze b "-" s = replaceRuns b "-" s.
Proof.
  induction s as [|a s IH]; [reflexivity|]. simpl. intros Hs b.
  apply andb_true_iff in Hs as [Ha Hs]. apply negb_true_iff in Ha.
  unfold isAlnum, isLowerAlnum. rewrite Ha, orb_false_r, !(IH Hs).
  reflexivity.
Qed.

Lemma lower_no_upper (s : string) :
  allBytes (fun a => negb (isUpper a)) (mapBytes lowerByte s) = true.
Proof.
  induction s as [|a s IH]; [reflexivity|]. simpl.
  destruct (lowerByte_plain a) as (-> & _). exact IH.
Qed.

Section SlugSteps.
Context `{UnicodeCase}.

(** The slug of an ASCII title is the slug of the title in lower case. *)
Lemma slugify_lower (s : string) :
  isASCII s = true -> slugify s = slugify (mapBytes lowerByte s).
Proof.
  intros Hs. unfold slugify, Index. rewrite lower_indexFrom.
  destruct (0 <? indexFrom 0 s "(").
  - unfold sliceTo. rewrite mapBytes_substring.
    pose proof (isASCII_substring s Hs 0 (Z.to_nat (indexFrom 0 s "("))) as Hu.
    remember (String.substring 0 (Z.to_nat (indexFrom 0 s "(")) s) as u eqn:E.
    clear E. rewrite (lower_TrimSpace u Hu).
    destruct (TrimSpace_split u Hu) as (_ & _ & _ & _ & _ & Hv).
    unfold ToLower. now rewrite lower_ascii, Hv, lower_lower.
  - unfold ToLower. now rewrite lower_ascii, Hs, lower_lower.
Qed.

Lemma slugify_case (t t' : string) :
  isASCII t = true -> caseVariant t' t = true -> slugify t' = slugify t.
Proof.
  intros Ht Hv. destruct (caseVariant_fold t' t Hv Ht) as (Ht' & _ & Hl).
  now rewrite (slugify_lower t Ht), (slugify_lower t' Ht'), Hl.
Qed.

Lemma slugify_cut (t q : string) :
  isASCII t = true -> Contains t "(" = false -> t <> EmptyString ->
  slugify (t +:+ "(" +:+ q) = slugify t.
Proof.
  intros Ha Hc Hne.
  rewrite (slugify_qualified t q Hc Hne), (slugify_plain t Hc).
  destruct (TrimSpace_split t Ha) as (sp1 & sp2 & Ht & A1 & A2 & Hcore).
  unfold ToLower. rewrite Ha, Hcore.
  remember (TrimSpace t) as core eqn:E. clear E. subst t.
  destruct (spaces_plain sp1 A1) as (L1 & R1 & N1).
  destruct (spaces_plain sp2 A2) as (L2 & R2 & N2).
  rewrite !mapBytes_app, !ReplaceAll_app, L1, L2, !R1, !R2.
  symmetry. now apply slug_core.
Qed.

Lemma slugify_leading (q : string) :
  isASCII q = true -> Contains q "(" = false ->
  slugify ("(" +:+ q) = slugify q.
Proof.
  intros Ha Hc. rewrite (slugify_plain q Hc). unfold slugify, Index.
  change ("(" +:+ q) with (String "(" q).
  rewrite indexFrom_unfold, prefix_byte.
  change (if Ascii.eqb "(" "(" then 0 else indexFrom (0 + 1) q "(") with 0.
  change (0 <? 0) with false. cbv iota.
  unfold ToLower.
  change (isASCII (String "(" q)) with (isASCIIByte "(" && isASCII q).
  rewrite Ha. change (isASCIIByte "(" && true) with true. cbv iota.
  change (mapBytes lowerByte (String "(" q))
    with (String "(" (mapBytes lowerByte q)).
  assert (forall y, ReplaceAll (String "(" y) "'" EmptyString
                    = String "(" (ReplaceAll y "'" EmptyString)) as Hr
    by reflexivity.
  rewrite !Hr.
  pose proof (slug_core "("
                (ReplaceAll (ReplaceAll (mapBytes lowerByte q) "'" EmptyString)
                   "'" EmptyString)
                EmptyString eq_refl eq_refl) as Hcore.
  rewrite app_empty_r in Hcore. exact Hcore.
Qed.

Lemma slugify_apostrophe (a b : string) :
  isASCII (a +:+ b) = true -> Contains (a +:+ b) "(" = false ->
  slugify (a +:+ "'" +:+ b) = slugify (a +:+ b).
Proof.
  intros Ha Hc.
  assert (Contains (a +:+ "'" +:+ b) "(" = false) as Hc'.
  { apply Contains_byte. apply Contains_byte in Hc.
    rewrite !allBytes_app in *. apply andb_true_iff in Hc as [-> ->].
    reflexivity. }
  assert (isASCII (a +:+ "'" +:+ b) = true) as Ha'.
  { rewrite isASCII_allBytes in *. rewrite !allBytes_app in *.
    apply andb_true_iff in Ha as [-> ->]. reflexivity. }
  rewrite (slugify_plain _ Hc), (slugify_plain _ Hc').
  unfold ToLower. rewrite Ha, Ha'.
  now rewrite !mapBytes_app, !ReplaceAll_app.
Qed.

Lemma slugify_words (t : string) :
  isASCII t = true -> Contains t "(" = false -> Contains t "'" = false ->
  slugify t = slugOfWords t.
Proof.
  intros Ha Hc Hq. rewrite (slugify_plain t Hc). unfold slugOfWords.
  rewrite (stripQualifier_plain t Hc). unfold ToLower. rewrite Ha.
  assert (allBytes (fun a => negb (Ascii.eqb a "'")) (mapBytes lowerByte t) = true)
    as Hq'.
  { rewrite allBytes_mapBytes. apply Contains_byte in Hq.
    etransitivity; [|exact Hq].
    apply allBytes_ext. intros a. cbn beta.
    now destruct (lowerByte_plain a) as (_ & _ & _ & -> & _). }
  rewrite !(ReplaceAll_absent "'" _ Hq'). unfold ReplaceAllNonAlnum.
  now rewrite squeeze_runs by apply lower_no_upper.
Qed.

End SlugSteps.

(** C7: every entry of the registry is a catalog entry with the slug that
    [slugify] derives from its title; that slug is the one the words of the
    specification give (qualifier stripped, case folded, runs of
    non-alphanumerics replaced by one hyphen, hyphens trimmed); and the
    slugs of the registry are pairwise distinct.  The derivation does
    these steps on any title, not on the titles of the catalog alone:
    - a slug has the bytes a-z, 0-9 and "-" only, with no "-" first or
      last and no two in a row;
    - what follows the first "(" of an ASCII title, and the white space
      before it, does not count, unless the title starts with it;
    - two ASCII titles that differ by the case of letters have one slug;
    - an apostrophe does not count;
    - a title with neither parenthesis nor apostrophe has the slug that
      the words of the specification give. *)
Theorem catalog_slugs_derived_and_distinct `{UnicodeCase} :
  All NewCheckRegistry
  = (fun c => CheckInfo.mk (CheckInfo.ID c) (slugify (CheckInfo.Title c))
                (CheckInfo.Title c) (CheckInfo.Category c)) <$> catalog
  /\ Forall (fun c => CheckInfo.Slug c = slugOfWords (CheckInfo.Title c))
       (All NewCheckRegistry)
  /\ NoDup (CheckInfo.Slug <$> All NewCheckRegistry)
  /\ (forall i j c1 c2,
        All NewCheckRegistry !! i = Some c1 ->
        All NewCheckRegistry !! j = Some c2 ->
        CheckInfo.Slug c1 = CheckInfo.Slug c2 -> i = j)
  /\ (forall title,
        allBytes slugByte (slugify title) = true
        /\ String.prefix "-" (slugify title) = false
        /\ HasSuffix (slugify title) "-" = false
        /\ Contains (slugify title) "--" = false)
  /\ (forall t q,
        isASCII t = true -> Contains t "(" = false -> t <> EmptyString ->
        slugify (t +:+ "(" +:+ q) = slugify t)
  /\ (forall q,
        isASCII q = true -> Contains q "(" = false ->
        slugify ("(" +:+ q) = slugify q)
  /\ (forall t t',
        isASCII t = true -> caseVariant t' t = true -> slugify t' = slugify t)
  /\ (forall a b,
        isASCII (a +:+ b) = true -> Contains (a +:+ b) "(" = false ->
        slugify (a +:+ "'" +:+ b) = slugify (a +:+ b))
  /\ (forall t,
        isASCII t = true -> Contains t "(" = false -> Contains t "'" = false ->
        slugify t = slugOfWords t).
Proof.
  rewrite NewCheckRegistry_checks.
  split; [reflexivity|]. split; [apply slugs_in_words|].
  split; [apply slugs_NoDup|].
  split.
  { intros i j c1 c2 Hi Hj Heq.
    apply (NoDup_lookup (CheckInfo.Slug <$> entries) i j (CheckInfo.Slug c1)).
    - apply slugs_NoDup.
    - rewrite list_lookup_fmap, Hi. reflexivity.
    - rewrite list_lookup_fmap, Hj, Heq. reflexivity. }
  split.
  { intros title. pose proof (slugify_isSlug title) as Hs. unfold isSlug in Hs.
    rewrite !andb_true_iff, !negb_true_iff in Hs. tauto. }
  split; [exact slugify_cut|]. split; [exact slugify_leading|].
  split; [exact slugify_case|]. split; [exact slugify_apostrophe|].
  exact slugify_words.
Qed.

Lemma catalog_slugs_derived_and_distinct_witness :
  @slugify asciiCase ("Exit nodes " +:+ "(" +:+ "all traffic)")
  = @slugify asciiCase "Exit nodes "
  /\ @slugify asciiCase ("(" +:+ "draft) exit nodes")
     = @slugify asciiCase "draft) exit nodes"
  /\ @slugify asciiCase "EXIT Nodes" = @slugify asciiCase "exit nodes"
  /\ @slugify asciiCase ("Don" +:+ "'" +:+ "t panic")
     = @slugify asciiCase ("Don" +:+ "t panic")
  /\ @slugify asciiCase "Exit nodes" = @slugOfWords asciiCase "Exit nodes".
Proof.
  destruct (@catalog_slugs_derived_and_distinct asciiCase)
    as (_ & _ & _ & _ & _ & Hcut & Hlead & Hcase & Hapostrophe & Hwords).
  split; [apply Hcut; [reflexivity|reflexivity|discriminate]|].
  split; [apply Hlead; reflexivity|].
  split; [apply Hcase; reflexivity|].
  split; [apply Hapostrophe; reflexivity|].
  apply Hwords; reflexivity.
Defined.

(** ** The registry of any catalog; more on [ResolveAll] *)

Section AnyCatalog.
Context `{UnicodeCase}.

Lemma fill_None {V} (key : V -> string) (l : list V) (k : string) :
  fill key l ∅ !! k = None <-> forall v, v ∈ l -> key v <> k.
Proof.
  split.
  - revert k. induction l as [|a l IH] using rev_ind; intros k Hk v Hv.
    + now apply elem_of_nil in Hv.
    + unfold fill in Hk. rewrite fold_left_app in Hk. cbn in Hk.
      fold (fill key l ∅) in Hk.
      destruct (decide (key a = k)) as [<-|Hne].
      * now rewrite lookup_insert_eq in Hk.
      * rewrite lookup_insert_ne in Hk by exact Hne.
        apply elem_of_app in Hv as [Hv|Hv]; [now apply (IH k)|].
        apply list_elem_of_singleton in Hv. now subst.
  - intros Hk. rewrite fill_miss by exact Hk. apply lookup_empty.
Qed.

Lemma fill_Some {V} (key : V -> string) (l : list V) (k : string) (v : V) :
  fill key l ∅ !! k = Some v -> v ∈ l /\ key v = k.
Proof.
  intros Hk. apply fill_sound in Hk as [Hk|Hk]; [exact Hk|].
  now rewrite lookup_empty in Hk.
Qed.

Lemma fill_last {V} (key : V -> string) (l : list V) (v : V) :
  fill key (l ++ [v]) ∅ !! key v = Some v.
Proof.
  unfold fill. rewrite fold_left_app. cbn. apply lookup_insert_eq.
Qed.

Lemma registryOf_checks (cs : list CheckInfo.t) :
  All (registryOf cs) = withSlug <$> cs.
Proof. exact (proj1 (registryOf_fold cs emptyRegistry)). Qed.

Lemma registryOf_byID (cs : list CheckInfo.t) :
  byID (registryOf cs) = fill idKey (withSlug <$> cs) ∅.
Proof. exact (proj1 (proj2 (registryOf_fold cs emptyRegistry))). Qed.

Lemma registryOf_bySlug (cs : list CheckInfo.t) :
  bySlug (registryOf cs) = fill CheckInfo.Slug (withSlug <$> cs) ∅.
Proof. exact (proj2 (proj2 (registryOf_fold cs emptyRegistry))). Qed.

Lemma withSlug_elem (cs : list CheckInfo.t) (e : CheckInfo.t) :
  e ∈ withSlug <$> cs ->
  exists c, c ∈ cs /\ CheckInfo.ID e = CheckInfo.ID c
            /\ CheckInfo.Slug e = slugify (CheckInfo.Title c).
Proof.
  intros He. apply list_elem_of_fmap in He as (c & -> & Hc). now exists c.
Qed.

(** What [Resolve] answers on the registry of any catalog. *)
Lemma Resolve_registryOf (cs : list CheckInfo.t) (name : string) :
  (exists c, c ∈ cs /\ matchesEntry name c
             /\ Resolve (registryOf cs) name = (CheckInfo.ID c, true))
  \/ ((forall c, c ∈ cs -> ~ matchesEntry name c)
      /\ Resolve (registryOf cs) name = (EmptyString, false)).
Proof.
  unfold Resolve. rewrite registryOf_byID, registryOf_bySlug.
  destruct (fill idKey (withSlug <$> cs) ∅ !! ToUpper name) as [e|] eqn:Eid.
  { apply fill_Some in Eid as [He Hkey].
    destruct (withSlug_elem cs e He) as (c & Hc & Hid & _).
    left. exists c. split; [exact Hc|]. split; [|now rewrite Hid].
    left. unfold idKey in Hkey. now rewrite <- Hid. }
  destruct (fill CheckInfo.Slug (withSlug <$> cs) ∅ !! ToLower name) as [e|] eqn:Esl.
  { apply fill_Some in Esl as [He Hkey].
    destruct (withSlug_elem cs e He) as (c & Hc & Hid & Hslug).
    left. exists c. split; [exact Hc|]. split; [|now rewrite Hid].
    right. now rewrite <- Hslug. }
  right. split; [|reflexivity].
  intros c Hc [Hm|Hm].
  - apply (proj1 (fill_None _ _ _) Eid (withSlug c)).
    + now apply list_elem_of_fmap_2.
    + unfold idKey. cbn. now symmetry.
  - apply (proj1 (fill_None _ _ _) Esl (withSlug c)).
    + now apply list_elem_of_fmap_2.
    + cbn. now symmetry.
Qed.

Lemma Resolve_own_ID (cs : list CheckInfo.t) (c : CheckInfo.t) (name : string) :
  NoDup ((fun c => ToUpper (CheckInfo.ID c)) <$> cs) ->
  c ∈ cs -> ToUpper name = ToUpper (CheckInfo.ID c) ->
  Resolve (registryOf cs) name = (CheckInfo.ID c, true).
Proof.
  intros Hnd Hc Hname. unfold Resolve. rewrite registryOf_byID.
  assert (fill idKey (withSlug <$> cs) ∅ !! ToUpper name = Some (withSlug c)) as ->;
    [|reflexivity].
  rewrite Hname. change (ToUpper (CheckInfo.ID c)) with (idKey (withSlug c)).
  apply fill_hit; [|now apply list_elem_of_fmap_2].
  rewrite <- list_fmap_compose. exact Hnd.
Qed.

Lemma Resolve_last (cs : list CheckInfo.t) (c : CheckInfo.t) (name : string) :
  ToUpper name = ToUpper (CheckInfo.ID c) ->
  Resolve (registryOf (cs ++ [c])) name = (CheckInfo.ID c, true).
Proof.
  intros Hname. unfold Resolve. rewrite registryOf_byID, fmap_app. cbn [fmap list_fmap].
  rewrite Hname. change (ToUpper (CheckInfo.ID c)) with (idKey (withSlug c)).
  now rewrite fill_last.
Qed.

End AnyCatalog.

Section ResolveAllMore.
Context `{UnicodeCase}.

Lemma kept_blank (names : list string) :
  (forall n, n ∈ names -> TrimSpace n = EmptyString) -> kept names = [].
Proof.
  induction names as [|n names IH]; intros Hb; [reflexivity|].
  rewrite kept_cons, (Hb n) by (apply elem_of_cons; now left).
  cbn. apply IH. intros m Hm. apply Hb, elem_of_cons. now right.
Qed.

Lemma unresolved_app (r : CheckRegistry) (a b : list string) :
  unresolved r (a ++ b) = unresolved r a ++ unresolved r b.
Proof. unfold unresolved. now rewrite kept_app, filter_app. Qed.

Lemma resolvedIDs_app (r : CheckRegistry) (a b : list string) :
  resolvedIDs r (a ++ b) = resolvedIDs r a ++ resolvedIDs r b.
Proof. unfold resolvedIDs. now rewrite kept_app, filter_app, fmap_app. Qed.

Lemma ResolveAll_ok (r : CheckRegistry) (names : list string) :
  snd (ResolveAll r names) = None <-> unresolved r names = [].
Proof.
  rewrite ResolveAll_eq.
  remember (Join (unresolved r names) ", ") as msg eqn:E. clear E.
  destruct (unresolved r names); cbn [snd]; split; congruence.
Qed.

Lemma ResolveAll_ids (r : CheckRegistry) (names : list string) :
  snd (ResolveAll r names) = None ->
  fst (ResolveAll r names) = resolvedIDs r names.
Proof.
  intros Hok. apply ResolveAll_ok in Hok. rewrite ResolveAll_eq.
  remember (Join (unresolved r names) ", ") as msg eqn:E. clear E.
  now rewrite Hok.
Qed.

Lemma Resolve_default_entry (name id : string) :
  Resolve DefaultRegistry name = (id, true) ->
  exists c, c ∈ entries /\ CheckInfo.ID c = id.
Proof.
  unfold Resolve.
  destruct (byID DefaultRegistry !! ToUpper name) as [c|] eqn:Eid.
  { intros [= <-]. apply byID_Some in Eid as [Hc _].
    exists c. split; [exact Hc|reflexivity]. }
  clear Eid.
  destruct (bySlug DefaultRegistry !! ToLower name) as [c|] eqn:Esl.
  { intros [= <-]. apply bySlug_Some in Esl as [Hc _].
    exists c. split; [exact Hc|reflexivity]. }
  intros Hr. discriminate Hr.
Qed.

Lemma Resolve_default_ID (c : CheckInfo.t) :
  c ∈ entries -> Resolve DefaultRegistry (CheckInfo.ID c) = (CheckInfo.ID c, true).
Proof. intros Hc. apply Resolve_by_ID; [exact Hc|]. unfold matchesID. reflexivity. Qed.

Lemma entries_IDs_trimmed :
  Forall (fun c => TrimSpace (CheckInfo.ID c) = CheckInfo.ID c
                   /\ CheckInfo.ID c <> EmptyString) entries.
Proof. by_compute. Qed.

End ResolveAllMore.

Section Entries2.
Context `{UnicodeCase}.

Lemma unresolved_nil (r : CheckRegistry) (names : list string) :
  unresolved r names = [] -> forall n, n ∈ kept names -> resolves r n = true.
Proof.
  unfold unresolved. intros Hu n Hn.
  destruct (resolves r n) eqn:E; [reflexivity|].
  assert (n ∈ filter (fun n => resolves r n = false) (kept names)) as Hin
    by (apply list_elem_of_filter; now split).
  rewrite Hu in Hin. now apply elem_of_nil in Hin.
Qed.

Lemma kept_id (ids : list string) :
  Forall (fun id => TrimSpace id = id /\ id <> EmptyString) ids -> kept ids = ids.
Proof.
  induction 1 as [|id ids [Ht Hne] _ IH]; [reflexivity|].
  rewrite kept_cons, Ht, IH.
  now destruct (String.eqb_spec id EmptyString).
Qed.

Lemma ResolveAll_fixed (r : CheckRegistry) (ids : list string) :
  kept ids = ids ->
  Forall (fun id => Resolve r id = (id, true)) ids ->
  ResolveAll r ids = (ids, None).
Proof.
  intros Hkept Hfix. rewrite ResolveAll_eq. unfold unresolved, resolvedIDs.
  rewrite Hkept. clear Hkept.
  assert (filter (fun n => resolves r n = false) ids = []
          /\ (fun n => fst (Resolve r n))
               <$> filter (fun n => resolves r n = true) ids = ids) as [-> ->];
    [|reflexivity].
  induction Hfix as [|id ids Hid _ [IH1 IH2]]; [now split|].
  assert (resolves r id = true) as Hres
    by (unfold resolves; rewrite Hid; reflexivity).
  rewrite (filter_cons_False (fun n => resolves r n = false))
    by (rewrite Hres; discriminate).
  rewrite (filter_cons_True (fun n => resolves r n = true)) by exact Hres.
  rewrite fmap_cons, Hid, IH2. split; [exact IH1|reflexivity].
Qed.

Lemma ResolveAll_canonical_any (r : CheckRegistry) (names ids : list string) :
  (forall n id, Resolve r n = (id, true) ->
     TrimSpace id = id /\ id <> EmptyString /\ Resolve r id = (id, true)) ->
  ResolveAll r names = (ids, None) ->
  ResolveAll r ids = (ids, None).
Proof.
  intros Hcanon Hr.
  assert (snd (ResolveAll r names) = None) as Hok by (rewrite Hr; reflexivity).
  pose proof (ResolveAll_ids _ _ Hok) as Hids. rewrite Hr in Hids.
  cbn [fst] in Hids. apply ResolveAll_ok in Hok.
  rewrite (all_resolved _ _ Hok) in Hids.
  assert (Forall (fun id => TrimSpace id = id /\ id <> EmptyString
                            /\ Resolve r id = (id, true)) ids) as Hall.
  { subst ids. apply Forall_fmap, Forall_forall. intros n Hn.
    pose proof (unresolved_nil _ _ Hok n Hn) as Hres. unfold resolves in Hres.
    unfold compose. cbn beta.
    destruct (Resolve r n) as [id ok] eqn:E.
    cbn [fst snd] in Hres |- *. subst ok. exact (Hcanon n id E). }
  apply ResolveAll_fixed.
  - apply kept_id. eapply Forall_impl; [exact Hall|]. cbn beta. tauto.
  - eapply Forall_impl; [exact Hall|]. cbn beta. tauto.
Qed.

(** X4: on the registry built from any catalog, [Resolve] finds a name
    exactly when some entry matches it, by its ID folded to upper case or
    by the slug of its title; the ID it returns is the ID of such an
    entry, and when it finds none the string it returns is empty. *)
Theorem Resolve_any_catalog (cs : list CheckInfo.t) (name : string) :
  (forall id, Resolve (registryOf cs) name = (id, true) ->
     exists c, c ∈ cs /\ id = CheckInfo.ID c /\ matchesEntry name c)
  /\ (snd (Resolve (registryOf cs) name) = true
      <-> exists c, c ∈ cs /\ matchesEntry name c)
  /\ (snd (Resolve (registryOf cs) name) = false ->
      fst (Resolve (registryOf cs) name) = EmptyString).
Proof.
  destruct (Resolve_registryOf cs name) as [(c & Hc & Hm & ->)|[Hno ->]].
  - split; [|split].
    + intros id [= <-]. eauto.
    + split; eauto.
    + discriminate.
  - split; [|split].
    + discriminate.
    + split; [discriminate|]. intros (c & Hc & Hm). destruct (Hno c Hc Hm).
    + reflexivity.
Qed.

(** X5: on the registry built from a catalog whose IDs are pairwise
    distinct once folded to upper case, every entry is found under its own
    ID in any letter case; when IDs repeat, the entry registered last
    answers. *)
Theorem Resolve_round_trip (cs : list CheckInfo.t) :
  (NoDup ((fun c => ToUpper (CheckInfo.ID c)) <$> cs) ->
   forall c name, c ∈ cs -> ToUpper name = ToUpper (CheckInfo.ID c) ->
     Resolve (registryOf cs) name = (CheckInfo.ID c, true))
  /\ (forall c name, ToUpper name = ToUpper (CheckInfo.ID c) ->
        Resolve (registryOf (cs ++ [c])) name = (CheckInfo.ID c, true)).
Proof.
  split.
  - intros Hnd c name. now apply Resolve_own_ID.
  - intros c name. apply Resolve_last.
Qed.

(** X6: what [Resolve] returns on the default registry is canonical: it
    is the ID of an entry of the registry, and resolves to itself. *)
Theorem Resolve_canonical (name id : string) :
  Resolve DefaultRegistry name = (id, true) ->
  Resolve DefaultRegistry id = (id, true)
  /\ exists c, c ∈ All DefaultRegistry /\ CheckInfo.ID c = id.
Proof.
  intros Hr. destruct (Resolve_default_entry name id Hr) as (c & Hc & <-).
  clear Hr. split; [exact (Resolve_default_ID c Hc)|].
  exists c. rewrite DefaultRegistry_checks. split; [exact Hc|reflexivity].
Qed.

(** X7: on names that all trim to the empty string, the empty list
    among them, [ResolveAll] succeeds with no ID, whatever the registry. *)
Theorem ResolveAll_blank_input (r : CheckRegistry) (names : list string) :
  (forall n, n ∈ names -> TrimSpace n = EmptyString) ->
  ResolveAll r names = ([], None).
Proof.
  intros Hb. rewrite ResolveAll_eq. unfold unresolved, resolvedIDs.
  now rewrite (kept_blank names Hb).
Qed.

(** X8: [ResolveAll] on two lists put end to end succeeds exactly when
    it succeeds on both, and then returns the IDs of the first followed by
    the IDs of the second. *)
Theorem ResolveAll_app (r : CheckRegistry) (a b : list string) :
  (snd (ResolveAll r (a ++ b)) = None
   <-> snd (ResolveAll r a) = None /\ snd (ResolveAll r b) = None)
  /\ (snd (ResolveAll r (a ++ b)) = None ->
      fst (ResolveAll r (a ++ b))
      = fst (ResolveAll r a) ++ fst (ResolveAll r b)).
Proof.
  assert (snd (ResolveAll r (a ++ b)) = None
          <-> snd (ResolveAll r a) = None /\ snd (ResolveAll r b) = None) as Hiff.
  { rewrite !ResolveAll_ok, unresolved_app. split.
    - intros Hu. now apply app_eq_nil in Hu.
    - intros [-> ->]. reflexivity. }
  split; [exact Hiff|]. intros Hok.
  destruct (proj1 Hiff Hok) as [Ha Hb].
  now rewrite !ResolveAll_ids, resolvedIDs_app.
Qed.

(** X9: when [ResolveAll] succeeds on the registry of a catalog, it
    returns one ID for each name that is not blank, in order, each the ID
    of an entry that the trimmed name matches; names that resolve to the
    same check give its ID again. *)
Theorem ResolveAll_one_ID_per_name (cs : list CheckInfo.t)
    (names ids : list string) :
  ResolveAll (registryOf cs) names = (ids, None) ->
  Forall2 (fun n id => exists c, c ∈ cs /\ matchesEntry n c /\ id = CheckInfo.ID c)
    (kept names) ids
  /\ length ids = length (kept names).
Proof.
  intros Hr.
  assert (snd (ResolveAll (registryOf cs) names) = None) as Hok by now rewrite Hr.
  pose proof (ResolveAll_ids _ _ Hok) as Hids. rewrite Hr in Hids. cbn in Hids.
  apply ResolveAll_ok in Hok.
  rewrite (all_resolved _ _ Hok) in Hids. subst ids.
  split; [|now rewrite length_fmap].
  apply Forall2_fmap_r, Forall_Forall2_diag, Forall_forall.
  intros n Hn. pose proof (unresolved_nil _ _ Hok n Hn) as Hres.
  unfold resolves in Hres.
  unfold compose. cbn beta.
  destruct (Resolve_registryOf cs n) as [(c & Hc & Hm & E)|[_ E]];
    rewrite E in Hres; rewrite E; [|discriminate Hres].
  exists c. now repeat split.
Qed.

(** X10: the IDs that [ResolveAll] returns on the default registry are
    a fixed point: resolving them again returns them unchanged. *)
Theorem ResolveAll_canonical (names ids : list string) :
  ResolveAll DefaultRegistry names = (ids, None) ->
  ResolveAll DefaultRegistry ids = (ids, None).
Proof.
  apply ResolveAll_canonical_any. intros n id Hr.
  destruct (Resolve_default_entry n id Hr) as (c & Hc & <-).
  destruct (proj1 (Forall_forall _ _) entries_IDs_trimmed c Hc) as [Ht Hne].
  split; [exact Ht|]. split; [exact Hne|]. exact (Resolve_default_ID c Hc).
Qed.

(** X19: [Resolve] does not look at the case of ASCII letters: on any
    registry, a name and an ASCII name that differ by letter case only get
    the same answer. *)
Theorem Resolve_case_blind (r : CheckRegistry) (name name' : string) :
  caseVariant name name' = true -> isASCII name' = true ->
  Resolve r name = Resolve r name'.
Proof.
  intros Hv Ha. destruct (caseVariant_To name name' Hv Ha) as [Hu Hl].
  unfold Resolve. now rewrite Hu, Hl.
Qed.

End Entries2.

Lemma Resolve_any_catalog_witness :
  @Resolve asciiCase (@registryOf asciiCase twoChecks) "funnel-exposes-services"
  = ("NET-001", true)
  /\ exists c, c ∈ twoChecks /\ "NET-001" = CheckInfo.ID c
               /\ @matchesEntry asciiCase "funnel-exposes-services" c.
Proof.
  split; [vm_compute; reflexivity|].
  apply (proj1 (@Resolve_any_catalog asciiCase twoChecks "funnel-exposes-services")).
  vm_compute. reflexivity.
Defined.

Lemma Resolve_round_trip_witness :
  @Resolve asciiCase (@registryOf asciiCase twoChecks) "dns-001"
  = ("DNS-001", true).
Proof.
  refine (proj1 (@Resolve_round_trip asciiCase twoChecks) _
            (entry "DNS-001" "MagicDNS configuration" DNSConfiguration)
            "dns-001" _ _).
  - by_compute.
  - unfold twoChecks. elem_found.
  - vm_compute. reflexivity.
Defined.

Lemma Resolve_canonical_witness :
  @Resolve asciiCase (@DefaultRegistry asciiCase) "magicdns-configuration" = ("DNS-001", true)
  /\ @Resolve asciiCase (@DefaultRegistry asciiCase) "DNS-001" = ("DNS-001", true).
Proof.
  assert (@Resolve asciiCase (@DefaultRegistry asciiCase) "magicdns-configuration"
          = ("DNS-001", true)) as Hr by (vm_compute; reflexivity).
  split; [exact Hr|].
  exact (proj1 (@Resolve_canonical asciiCase "magicdns-configuration" "DNS-001" Hr)).
Defined.

Lemma ResolveAll_blank_input_witness :
  @ResolveAll asciiCase exampleRegistry [" "; EmptyString] = ([], None).
Proof.
  apply (@ResolveAll_blank_input asciiCase).
  intros n Hn. apply elem_of_cons in Hn as [->|Hn]; [reflexivity|].
  apply list_elem_of_singleton in Hn as ->. reflexivity.
Defined.

Lemma ResolveAll_app_witness :
  fst (@ResolveAll asciiCase exampleRegistry (["acl-001"] ++ [" DNS-001"]))
  = ["ACL-001"] ++ ["DNS-001"].
Proof.
  rewrite (proj2 (@ResolveAll_app asciiCase exampleRegistry ["acl-001"] [" DNS-001"]))
    by (vm_compute; reflexivity).
  vm_compute. reflexivity.
Defined.

Lemma ResolveAll_one_ID_per_name_witness :
  @ResolveAll asciiCase (@registryOf asciiCase twoChecks)
    ["dns-001"; " "; "magicdns-configuration"]
  = (["DNS-001"; "DNS-001"], None)
  /\ length ["DNS-001"; "DNS-001"]
     = length (kept ["dns-001"; " "; "magicdns-configuration"]).
Proof.
  assert (@ResolveAll asciiCase (@registryOf asciiCase twoChecks)
            ["dns-001"; " "; "magicdns-configuration"]
          = (["DNS-001"; "DNS-001"], None)) as Hr by (vm_compute; reflexivity).
  split; [exact Hr|].
  exact (proj2 (@ResolveAll_one_ID_per_name asciiCase twoChecks _ _ Hr)).
Defined.

Lemma ResolveAll_canonical_witness :
  @ResolveAll asciiCase (@DefaultRegistry asciiCase) ["acl-001"; "magicdns-configuration"]
  = (["ACL-001"; "DNS-001"], None)
  /\ @ResolveAll asciiCase (@DefaultRegistry asciiCase) ["ACL-001"; "DNS-001"]
     = (["ACL-001"; "DNS-001"], None).
Proof.
  assert (@ResolveAll asciiCase (@DefaultRegistry asciiCase) ["acl-001"; "magicdns-configuration"]
          = (["ACL-001"; "DNS-001"], None)) as Hr by (vm_compute; reflexivity).
  split; [exact Hr|].
  exact (@ResolveAll_canonical asciiCase _ _ Hr).
Defined.

Lemma Resolve_case_blind_witness :
  @Resolve asciiCase exampleRegistry "Dns-001"
  = @Resolve asciiCase exampleRegistry "dNS-001".
Proof.
  apply (@Resolve_case_blind asciiCase); vm_compute; reflexivity.
Defined.

(** ** More on the orchestrator *)

Section RunMore.
Context {ACLPolicy : Type} (zeroPolicy : ACLPolicy).

Abbreviation World := (@World ACLPolicy).

Lemma slot_in_report (w : World) (c : Category) :
  forall s, s ∈ slot c (auditResult zeroPolicy w c) ->
  s ∈ AuditReport.Suggestions (finalReport zeroPolicy w).
Proof.
  intros s Hs. unfold finalReport, slots. cbn [AuditReport.Suggestions].
  apply elem_of_app. right. apply list_elem_of_In, in_concat.
  exists (slot c (auditResult zeroPolicy w c)). split.
  - apply list_elem_of_In.
    apply (list_elem_of_fmap_2 (fun c => slot c (auditResult zeroPolicy w c))).
    destruct c; unfold categoryOrder; elem_found.
  - now apply list_elem_of_In.
Qed.

(** X12: [Run] returns either a report and a nil error, or no report
    and an error, never both and never neither; the error is returned
    exactly when the fetch of the policy document fails with an error that
    [isAuthError] accepts, and the report carries the time of the run and
    the tailnet of the client. *)
Theorem Run_report_or_error (w : World) :
  (exists err,
     GetACLHuJSON w = Err err /\ isAuthError (Some err) = true
     /\ Run zeroPolicy w = (None, Some (authenticationFailed err)))
  \/ (exists report,
        (forall err, GetACLHuJSON w = Err err -> isAuthError (Some err) = false)
        /\ Run zeroPolicy w = (Some report, None)
        /\ AuditReport.Timestamp report = Now w
        /\ AuditReport.Tailnet report = ClientTailnet w).
Proof.
  destruct (aborts w) eqn:Hab.
  - left. destruct (aborts_true w Hab) as (err & Hget & Hauth).
    exists err. split; [exact Hget|]. split; [exact Hauth|].
    unfold Run. now rewrite (run_aborted zeroPolicy w err Hget Hauth).
  - right. exists (finalReport zeroPolicy w). split.
    + intros err Hget. unfold aborts in Hab. now rewrite Hget in Hab.
    + split; [apply (Run_returns_report zeroPolicy w Hab)|]. now split.
Qed.

(** X13: a category auditor that was called and failed never stops the
    run, whatever its error (one of the authentication class too) and
    however many auditors fail: [Run] returns a report, and the report
    holds the finding that stands for that category's failure. *)
Theorem failed_auditor_is_reported (w : World) (c : Category)
    (p : option ACLPolicy) (err : error) :
  CallAudit c p (Err err) ∈ calls zeroPolicy w ->
  exists report,
    Run zeroPolicy w = (Some report, None)
    /\ auditError c err ∈ AuditReport.Suggestions report.
Proof.
  intros Hfail. destruct (aborts w) eqn:Hab.
  { rewrite (calls_aborted zeroPolicy w Hab) in Hfail.
    apply list_elem_of_singleton in Hfail. discriminate Hfail. }
  apply (audit_called zeroPolicy w c p (Err err) Hab) in Hfail as [_ Hres].
  exists (finalReport zeroPolicy w).
  split; [apply (Run_returns_report zeroPolicy w Hab)|].
  apply (slot_in_report w c). rewrite <- Hres. cbn. apply list_elem_of_singleton.
  reflexivity.
Qed.

(** X14: when the policy document is fetched, standardized and decoded
    without error, [Run] adds no finding of its own: the report is what the
    seven auditors gave, in order, the network and ssh auditors were called
    with the decoded policy, and each call was made once. *)
Theorem clean_policy_adds_nothing (w : World) (aclHuJSON standardizedACL : string)
    (policy : ACLPolicy) :
  GetACLHuJSON w = Ok aclHuJSON ->
  Standardize w aclHuJSON = Ok standardizedACL ->
  Unmarshal w standardizedACL zeroPolicy = (policy, None) ->
  exists report,
    Run zeroPolicy w = (Some report, None)
    /\ AuditReport.Suggestions report
       = slot AccessControl (ACLAudit w) ++ slot Authentication (AuthAudit w)
         ++ slot DeviceSecurity (DeviceAudit w)
         ++ slot NetworkExposure (NetworkAudit w policy)
         ++ slot SSHSecurity (SSHAudit w policy)
         ++ slot LoggingAdmin (LoggingAudit w)
         ++ slot DNSConfiguration (DNSAudit w)
    /\ calls zeroPolicy w
       = [CallGetACLHuJSON; CallStandardize; CallUnmarshal;
          CallAudit AccessControl None (ACLAudit w);
          CallAudit Authentication None (AuthAudit w);
          CallAudit DeviceSecurity None (DeviceAudit w);
          CallAudit NetworkExposure (Some policy) (NetworkAudit w policy);
          CallAudit SSHSecurity (Some policy) (SSHAudit w policy);
          CallAudit LoggingAdmin None (LoggingAudit w);
          CallAudit DNSConfiguration None (DNSAudit w);
          CallCalculateSummary].
Proof.
  intros Hget Hstd Hun.
  assert (aborts w = false) as Hab by (unfold aborts; now rewrite Hget).
  assert (policyOf zeroPolicy w = policy) as Hp
    by (unfold policyOf; now rewrite Hget, Hstd, Hun).
  exists (finalReport zeroPolicy w).
  split; [apply (Run_returns_report zeroPolicy w Hab)|]. split.
  - unfold finalReport, policyFindings, slots. rewrite Hget, Hstd, Hun.
    cbn. rewrite Hp, app_nil_r. reflexivity.
  - rewrite (calls_completed zeroPolicy w Hab). unfold parseCalls, auditCall.
    rewrite Hget, Hstd. cbn. rewrite Hp. reflexivity.
Qed.

(** X15: [Run] standardizes the policy exactly when the fetch gave a
    document, and calls [json.Unmarshal] exactly when the standardization
    succeeded too: a document that was not standardized is never decoded. *)
Theorem decoders_called_in_turn (w : World) :
  (CallStandardize ∈ calls zeroPolicy w
   <-> exists aclHuJSON, GetACLHuJSON w = Ok aclHuJSON)
  /\ (CallUnmarshal ∈ calls zeroPolicy w
      <-> exists aclHuJSON standardizedACL,
            GetACLHuJSON w = Ok aclHuJSON
            /\ Standardize w aclHuJSON = Ok standardizedACL).
Proof.
  assert (forall e : @Event ACLPolicy,
            (e = CallStandardize \/ e = CallUnmarshal) ->
            (e ∈ calls zeroPolicy w <-> e ∈ parseCalls w)) as Hparse.
  { intros e He. destruct (aborts w) eqn:Hab.
    - rewrite (calls_aborted zeroPolicy w Hab).
      destruct (aborts_true w Hab) as (err & Hget & _).
      unfold parseCalls. rewrite Hget. split; intros Hin.
      + apply list_elem_of_singleton in Hin. destruct He; congruence.
      + now apply elem_of_nil in Hin.
    - rewrite (calls_completed zeroPolicy w Hab). split; intros Hin.
      + apply elem_of_cons in Hin as [Hin|Hin]; [destruct He; congruence|].
        apply elem_of_app in Hin as [Hin|Hin]; [exact Hin|].
        apply elem_of_app in Hin as [Hin|Hin].
        * apply list_elem_of_fmap in Hin as (c & E & _).
          unfold auditCall in E. destruct He; congruence.
        * apply list_elem_of_singleton in Hin. destruct He; congruence.
      + apply elem_of_cons. right. apply elem_of_app. now left. }
  split.
  - rewrite (Hparse CallStandardize) by now left.
    unfold parseCalls. destruct (GetACLHuJSON w) as [acl|err]; split.
    + intros _. now exists acl.
    + intros _. apply elem_of_cons. now left.
    + intros Hin. now apply elem_of_nil in Hin.
    + intros (acl & E). discriminate E.
  - rewrite (Hparse CallUnmarshal) by now right.
    unfold parseCalls. destruct (GetACLHuJSON w) as [acl|err]; split.
    + intros Hin. apply elem_of_cons in Hin as [Hin|Hin]; [discriminate Hin|].
      destruct (Standardize w acl) as [std|err] eqn:Hstd.
      * now exists acl, std.
      * now apply elem_of_nil in Hin.
    + intros (acl' & std & [= <-] & ->). elem_found.
    + intros Hin. now apply elem_of_nil in Hin.
    + intros (acl & std & E & _). discriminate E.
Qed.

(** X16: when the fetch of the policy fails with an error that
    [isAuthError] rejects and every auditor fails, the report is "SYS-001"
    of high severity followed by the seven "-ERR" findings of medium
    severity in category order, none of them passing. *)
Theorem total_outage_report (w : World) (e0 e1 e2 e3 e4 e5 e6 e7 : error) :
  GetACLHuJSON w = Err e0 -> isAuthError (Some e0) = false ->
  ACLAudit w = Err e1 -> AuthAudit w = Err e2 -> DeviceAudit w = Err e3 ->
  NetworkAudit w zeroPolicy = Err e4 -> SSHAudit w zeroPolicy = Err e5 ->
  LoggingAudit w = Err e6 -> DNSAudit w = Err e7 ->
  exists report,
    Run zeroPolicy w = (Some report, None)
    /\ (fun s => (Suggestion.ID s, Suggestion.Severity s, Suggestion.Pass s))
         <$> AuditReport.Suggestions report
       = [("SYS-001", High, false); ("ACL-ERR", Medium, false);
          ("AUTH-ERR", Medium, false); ("DEV-ERR", Medium, false);
          ("NET-ERR", Medium, false); ("SSH-ERR", Medium, false);
          ("LOG-ERR", Medium, false); ("DNS-ERR", Medium, false)].
Proof.
  intros Hget Hauth H1 H2 H3 H4 H5 H6 H7.
  assert (aborts w = false) as Hab by (unfold aborts; now rewrite Hget).
  assert (policyOf zeroPolicy w = zeroPolicy) as Hp
    by (unfold policyOf; now rewrite Hget).
  exists (finalReport zeroPolicy w).
  split; [apply (Run_returns_report zeroPolicy w Hab)|].
  unfold finalReport, policyFindings, slots. rewrite Hget.
  cbn [AuditReport.Suggestions categoryOrder fmap list_fmap concat auditResult].
  rewrite Hp, H1, H2, H3, H4, H5, H6, H7. reflexivity.
Qed.

End RunMore.

Lemma failed_auditor_is_reported_witness :
  isAuthError (Some unauthorized) = true
  /\ exists report,
       Run tt twoDown = (Some report, None)
       /\ auditError DNSConfiguration unauthorized
            ∈ AuditReport.Suggestions report.
Proof.
  split; [vm_compute; reflexivity|].
  apply (failed_auditor_is_reported tt twoDown DNSConfiguration None unauthorized).
  assert (calls tt twoDown
          = [CallGetACLHuJSON; CallStandardize; CallUnmarshal;
             CallAudit AccessControl None (Ok []);
             CallAudit Authentication None (Ok []);
             CallAudit DeviceSecurity None (Err unauthorized);
             CallAudit NetworkExposure (Some tt) (Ok []);
             CallAudit SSHSecurity (Some tt) (Ok []);
             CallAudit LoggingAdmin None (Ok []);
             CallAudit DNSConfiguration None (Err unauthorized);
             CallCalculateSummary]) as -> by (vm_compute; reflexivity).
  elem_found.
Defined.

Lemma clean_policy_adds_nothing_witness :
  exists report,
    Run tt deviceDown = (Some report, None)
    /\ AuditReport.Suggestions report = [auditError DeviceSecurity connectionReset].
Proof.
  destruct (clean_policy_adds_nothing tt deviceDown "{}" "{}" tt
              eq_refl eq_refl eq_refl) as (report & Hrun & Hsugg & _).
  exists report. split; [exact Hrun|]. rewrite Hsugg. reflexivity.
Defined.

Lemma total_outage_report_witness :
  exists report,
    Run tt allDown = (Some report, None)
    /\ Suggestion.ID <$> AuditReport.Suggestions report
       = ["SYS-001"; "ACL-ERR"; "AUTH-ERR"; "DEV-ERR"; "NET-ERR"; "SSH-ERR";
          "LOG-ERR"; "DNS-ERR"].
Proof.
  destruct (total_outage_report tt allDown connectionReset connectionReset
              connectionReset connectionReset connectionReset connectionReset
              connectionReset connectionReset eq_refl)
    as (report & Hrun & Hsugg);
    try reflexivity.
  exists report. split; [exact Hrun|].
  apply (f_equal (fmap (fun t => fst (fst t)))) in Hsugg.
  rewrite <- list_fmap_compose in Hsugg. exact Hsugg.
Defined.

(** ** The client *)

(** X17: [New] fails exactly when the environment has neither both
    OAuth variables nor TSKEY, and returns a client or an error, never
    both; the client's tailnet is the given one, or "-" for the empty
    string, and so never empty; with both OAuth variables set the client
    uses them, whatever TSKEY holds, and otherwise it uses TSKEY. *)
Theorem New_credentials (Getenv : string -> string) (tailnet : string) :
  let id := Getenv "TS_OAUTH_CLIENT_ID" in
  let secret := Getenv "TS_OAUTH_CLIENT_SECRET" in
  let key := Getenv "TSKEY" in
  let given := if String.eqb tailnet EmptyString then "-" else tailnet in
  (fst (fst (New Getenv tailnet)) = None
   <-> (id = EmptyString \/ secret = EmptyString) /\ key = EmptyString)
  /\ (fst (fst (New Getenv tailnet)) = None
      <-> snd (fst (New Getenv tailnet)) <> None)
  /\ (forall c, fst (fst (New Getenv tailnet)) = Some c ->
        Tailnet c = given /\ Tailnet c <> EmptyString
        /\ TSClient.tailnet (Client.ts c) = given
        /\ (id <> EmptyString -> secret <> EmptyString ->
            TSClient.apiKey (Client.ts c) = "oauth"
            /\ TSClient.HTTPClient (Client.ts c)
               = Some (OAuthConfig.mk id secret
                         "https://api.tailscale.com/api/v2/oauth/token"))
        /\ (id = EmptyString \/ secret = EmptyString ->
            TSClient.apiKey (Client.ts c) = key
            /\ TSClient.HTTPClient (Client.ts c) = None)).
Proof.
  intros id secret key given. subst id secret key given. unfold New, newWithOAuth.
  assert ((if String.eqb tailnet EmptyString then "-" else tailnet) <> EmptyString)
    as Hne.
  { destruct (String.eqb_spec tailnet EmptyString); [discriminate|assumption]. }
  remember (if String.eqb tailnet EmptyString then "-" else tailnet) as given.
  clear Heqgiven.
  destruct (String.eqb_spec (Getenv "TS_OAUTH_CLIENT_ID") EmptyString) as [Hid|Hid];
    destruct (String.eqb_spec (Getenv "TS_OAUTH_CLIENT_SECRET") EmptyString)
      as [Hs|Hs];
    destruct (String.eqb_spec (Getenv "TSKEY") EmptyString) as [Hk|Hk];
    cbn [negb andb fst snd];
    (split; [split; [try discriminate; tauto|tauto]|]);
    (split; [split; [try discriminate; intros; discriminate
                    |try (intros Hn; now destruct Hn); tauto]|]);
    intros c Hc; try discriminate Hc; injection Hc as <-;
    cbn; repeat split; try assumption; try reflexivity; try tauto;
    intros; try tauto.
Qed.

(** X18: [GetDNSConfig] returns a configuration exactly when the three
    lookups succeed and the preferences are not nil, and it then holds
    their three answers; when the three lookups succeed and the
    preferences are nil, it panics on them, after the third lookup;
    otherwise it returns no configuration and an error that wraps the
    first failure, contains its text and is accepted by [isAuthError]
    whenever the failure is; no lookup is made after one that failed. *)
Theorem GetDNSConfig_first_failure (w : DNSWorld) :
  let lookups := snd (GetDNSConfig w) in
  (forall c,
     fst (GetDNSConfig w) = Returns (Some c, None)
     <-> tsDNSPreferences w = Ok (Some (DNSPreferences.mk (DNSConfig.MagicDNS c)))
         /\ tsNameServers w = Ok (DNSConfig.NameServers c)
         /\ tsSearchPaths w = Ok (DNSConfig.SearchPaths c))
  /\ (forall msg,
        fst (GetDNSConfig w) = Panics msg
        <-> msg = nilDereference
            /\ tsDNSPreferences w = Ok None
            /\ errorOf (tsNameServers w) = None
            /\ errorOf (tsSearchPaths w) = None)
  /\ (forall msg,
        fst (GetDNSConfig w) = Panics msg ->
        lookups = [CallDNSPreferences; CallNameServers; CallSearchPaths])
  /\ (forall c e,
        fst (GetDNSConfig w) = Returns (c, e) -> (c = None <-> e <> None))
  /\ (forall c e,
        fst (GetDNSConfig w) = Returns (c, Some e) ->
        exists cause msg,
          e = wrapError msg cause
          /\ Contains msg (Error cause) = true
          /\ (isAuthError (Some cause) = true -> isAuthError (Some e) = true)
          /\ (errorOf (tsDNSPreferences w) = Some cause
              /\ lookups = [CallDNSPreferences]
              \/ errorOf (tsDNSPreferences w) = None
                 /\ errorOf (tsNameServers w) = Some cause
                 /\ lookups = [CallDNSPreferences; CallNameServers]
              \/ errorOf (tsDNSPreferences w) = None
                 /\ errorOf (tsNameServers w) = None
                 /\ errorOf (tsSearchPaths w) = Some cause
                 /\ lookups = [CallDNSPreferences; CallNameServers;
                               CallSearchPaths])).
Proof.
  assert (forall pre cause,
            Contains (pre +:+ Error cause) (Error cause) = true
            /\ (isAuthError (Some cause) = true ->
                isAuthError (Some (wrapError (pre +:+ Error cause) cause)) = true))
    as Hwrap.
  { intros pre cause.
    assert (Contains (pre +:+ Error cause) (Error cause) = true) as Hc.
    { rewrite <- (app_empty_r (Error cause)) at 1. apply Contains_segment. }
    split; [exact Hc|]. intros Hauth.
    exact (isAuthError_mono cause (wrapError (pre +:+ Error cause) cause)
             Hc Hauth). }
  unfold GetDNSConfig.
  destruct (tsDNSPreferences w) as [prefs|e1]; cbn [errorOf fst snd].
  2:{ split; [intros c; split; [discriminate|intros [E _]; discriminate E]|].
      split; [intros msg; split; [discriminate|intros (_ & E & _); discriminate E]|].
      split; [discriminate|].
      split; [intros c e [= <- <-]; split; [discriminate|reflexivity]|].
      intros c e [= _ <-]. eexists e1, _. split; [reflexivity|].
      destruct (Hwrap "failed to get DNS preferences: " e1) as [Hc Ha].
      split; [exact Hc|]. split; [exact Ha|]. left. now split. }
  destruct (tsNameServers w) as [ns|e2]; cbn [errorOf fst snd].
  2:{ split; [intros c; split; [discriminate|intros (_ & E & _); discriminate E]|].
      split; [intros msg; split;
              [discriminate|intros (_ & _ & E & _); discriminate E]|].
      split; [discriminate|].
      split; [intros c e [= <- <-]; split; [discriminate|reflexivity]|].
      intros c e [= _ <-]. eexists e2, _. split; [reflexivity|].
      destruct (Hwrap "failed to get nameservers: " e2) as [Hc Ha].
      split; [exact Hc|]. split; [exact Ha|]. right. left. now repeat split. }
  destruct (tsSearchPaths w) as [sp|e3]; cbn [errorOf fst snd].
  2:{ split; [intros c; split; [discriminate|intros (_ & _ & E); discriminate E]|].
      split; [intros msg; split;
              [discriminate|intros (_ & _ & _ & E); discriminate E]|].
      split; [discriminate|].
      split; [intros c e [= <- <-]; split; [discriminate|reflexivity]|].
      intros c e [= _ <-]. eexists e3, _. split; [reflexivity|].
      destruct (Hwrap "failed to get search paths: " e3) as [Hc Ha].
      split; [exact Hc|]. split; [exact Ha|]. right. right. now repeat split. }
  destruct prefs as [[magic]|].
  - split.
    { intros [m n p]. cbn. split.
      + intros [= -> -> ->]. now repeat split.
      + intros ([= ->] & [= ->] & [= ->]). reflexivity. }
    split; [intros msg; split; [discriminate|intros (_ & E & _); discriminate E]|].
    split; [discriminate|].
    split; [intros c e [= <- <-]; split; [discriminate|intros Hn; now destruct Hn]|].
    discriminate.
  - split.
    { intros c. split; [discriminate|intros [E _]; discriminate E]. }
    split.
    { intros msg. split.
      + intros [= <-]. now repeat split.
      + intros (-> & _). reflexivity. }
    split; [reflexivity|].
    split; discriminate.
Qed.

Lemma GetDNSConfig_first_failure_witness :
  snd (GetDNSConfig dnsForbidden) = [CallDNSPreferences; CallNameServers]
  /\ (exists e, fst (GetDNSConfig dnsForbidden) = Returns (None, Some e)
                /\ isAuthError (Some e) = true)
  /\ fst (GetDNSConfig dnsNull) = Panics nilDereference.
Proof.
  split; [reflexivity|]. split.
  - exists (wrapError "failed to get nameservers: 403 Forbidden"
              (errorString "403 Forbidden")).
    split; [reflexivity|].
    destruct (proj2 (proj2 (proj2 (proj2 (GetDNSConfig_first_failure dnsForbidden))))
                None
                (wrapError "failed to get nameservers: 403 Forbidden"
                   (errorString "403 Forbidden")) eq_refl)
      as (cause & msg & Hwrap & _ & Hauth & _).
    injection Hwrap as <- <-. apply Hauth. vm_compute. reflexivity.
  - apply (proj1 (proj2 (GetDNSConfig_first_failure dnsNull))).
    now repeat split.
Defined.
